(** * Focal loss for LightGBM

    A shallow embedding of the four functions of
    [examples/Lightgbm_with_Focal_Loss.ipynb]:
    [focal_loss_lgb], [focal_loss_lgb_eval_error], [focal_loss_lgb_sk] and
    [focal_loss_lgb_eval_error_sk], together with the two library routines
    they lean on, numpy's broadcasting element-wise operators and
    [scipy.misc.derivative].

    The notebook is written once and runs on whatever numbers numpy hands
    it, so the embedding is written once too, over an interface [NumPy A] of
    the scalar operations, and read at two instances:
    - [float]: binary64, the kernel's primitive floats, which is what the
      code runs on; [exp], [log] and [**] are a model of the C library's;
    - [R]: exact real arithmetic, the arithmetic of the specification's
      formulas.  A statement read at [R] says that it is one of exact
      arithmetic, and what the code does differently in binary64 is stated
      beside it.
    What is proved for every instance holds at both. *)

From Stdlib Require Import String List ZArith Bool Lia.
From Stdlib Require Import Reals Lra.
From Stdlib Require Import Floats.
Import ListNotations.

Set Implicit Arguments.

(** A decimal literal in binary64 is the nearest float, as it is in Python. *)
Set Warnings "-inexact-float".

(** ** Python values, exceptions *)

(** The only exception the four functions can meet is numpy's
    [ValueError: operands could not be broadcast together with shapes (m,) (n,)]. *)
Inductive exn : Type :=
| ValueError_broadcast (m n : nat).

Inductive result (X : Type) : Type :=
| Ok (x : X)
| Raise (e : exn).

Arguments Ok {X} x.
Arguments Raise {X} e.

Definition bind {X Y : Type} (r : result X) (k : X -> result Y) : result Y :=
  match r with
  | Ok x => k x
  | Raise e => Raise e
  end.

Notation "x <- r ;; k" := (bind r (fun x => k))
  (at level 61, r at next level, right associativity).

(** A value is a Python float or a one-dimensional [numpy.ndarray]. *)
Inductive value (A : Type) : Type :=
| Scalar (x : A)
| Array (l : list A).

Arguments Scalar {A} x.
Arguments Array {A} l.

(** ** The scalar operations numpy supplies *)

Class NumPy (A : Type) : Type := {
  of_int : Z -> A;            (* a Python int used where a float is expected *)
  lit_1e_6 : A;               (* the literal 1e-6 *)
  np_negative : A -> A;       (* -x *)
  np_add : A -> A -> A;       (* x + y *)
  np_subtract : A -> A -> A;  (* x - y *)
  np_multiply : A -> A -> A;  (* x * y *)
  np_divide : A -> A -> A;    (* x / y *)
  np_power : A -> A -> A;     (* x ** y *)
  np_exp : A -> A;
  np_log : A -> A
}.

Fixpoint map2 {A B C : Type} (f : A -> B -> C) (u : list A) (v : list B) : list C :=
  match u, v with
  | x :: u', y :: v' => f x y :: map2 f u' v'
  | _, _ => []
  end.

Section Program.

Context {A : Type} `{NumPy A}.

(** ** Element-wise operators with numpy's broadcasting *)

(** A unary ufunc maps over an array. *)
Definition ufunc1 (f : A -> A) (u : value A) : value A :=
  match u with
  | Scalar x => Scalar (f x)
  | Array l => Array (map f l)
  end.

(** A binary ufunc: a scalar is stretched over an array; two arrays must have
    the same length, or one of them length 1 (it is stretched); any other pair
    of shapes raises. *)
Definition ufunc2 (op : A -> A -> A) (u v : value A) : result (value A) :=
  match u, v with
  | Scalar x, Scalar y => Ok (Scalar (op x y))
  | Scalar x, Array r => Ok (Array (map (op x) r))
  | Array l, Scalar y => Ok (Array (map (fun x => op x y) l))
  | Array l, Array r =>
      if Nat.eqb (length l) (length r) then Ok (Array (map2 op l r))
      else match l, r with
           | [x], _ => Ok (Array (map (op x) r))
           | _, [y] => Ok (Array (map (fun x => op x y) l))
           | _, _ => Raise (ValueError_broadcast (length l) (length r))
           end
  end.

(** Operands are evaluated left to right; the first exception wins. *)
Definition lift1 (f : A -> A) (u : result (value A)) : result (value A) :=
  x <- u ;; Ok (ufunc1 f x).

Definition lift2 (op : A -> A -> A) (u v : result (value A)) : result (value A) :=
  x <- u ;; y <- v ;; ufunc2 op x y.

(** A Python int literal, a float, an array, as operands. *)
Definition int (z : Z) : result (value A) := Ok (Scalar (of_int z)).
Definition flt (x : A) : result (value A) := Ok (Scalar x).

End Program.

Declare Scope np_scope.
Delimit Scope np_scope with np.
Notation "- x" := (lift1 np_negative x) : np_scope.
Notation "x + y" := (lift2 np_add x y) : np_scope.
Notation "x - y" := (lift2 np_subtract x y) : np_scope.
Notation "x * y" := (lift2 np_multiply x y) : np_scope.
Notation "x / y" := (lift2 np_divide x y) : np_scope.
Notation "x ** y" := (lift2 np_power x y) (at level 30, right associativity) : np_scope.
Notation "'np.exp' x" := (lift1 np_exp x) (at level 10, x at level 9) : np_scope.
Notation "'np.log' x" := (lift1 np_log x) (at level 10, x at level 9) : np_scope.

Section Notebook.

Context {A : Type} `{NumPy A}.

(** ** Library routines *)

(** [np.mean] of a one-dimensional array: the sum of the elements over their
    number.  The additions are taken left to right from 0; numpy groups them
    in blocks, which is the same number in exact arithmetic and may differ in
    the last bits in binary64.  The mean of an empty array is 0/0. *)
Definition np_sum (l : list A) : A := fold_left np_add l (of_int 0).

Definition np_mean (u : value A) : A :=
  match u with
  | Scalar x => x
  | Array l => np_divide (np_sum l) (of_int (Z.of_nat (length l)))
  end.

(** [np.prod] of a tuple of floats. *)
Definition np_prod (l : list A) : A :=
  match l with
  | [] => of_int 1
  | x :: r => fold_left np_multiply r x
  end.

(** The two ways the notebook calls [scipy.misc.derivative]: [n=1] and [n=2],
    both with the default [order=3]. *)
Inductive nth_derivative : Type := n_1 | n_2.

Definition nat_of (n : nth_derivative) : nat :=
  match n with n_1 => 1 | n_2 => 2 end.

(** [scipy.misc.derivative(func, x0, dx, n)] with [order = 3], as scipy
    defines it:
<<
    weights = array([-1,0,1])/2.0        (n == 1)
    weights = array([1,-2.0,1])          (n == 2)
    val = 0.0
    ho = order >> 1
    for k in range(order):
        val += weights[k]*func(x0+(k-ho)*dx,*args)
    return val / prod((dx,)*n,axis=0)
>> *)
Definition weights (n : nth_derivative) : list A :=
  match n with
  | n_1 => map (fun w => np_divide (of_int w) (of_int 2)) [-1; 0; 1]%Z
  | n_2 => map of_int [1; -2; 1]%Z
  end.

Definition derivative (func : value A -> result (value A)) (x0 : value A)
    (n : nth_derivative) (dx : A) : result (value A) :=
  let ho := 1%Z in
  let step (val : result (value A)) (kw : Z * A) : result (value A) :=
    let (k, w) := kw in
    (val + flt w * (x <- (Ok x0 + int (k - ho) * flt dx) ;; func x))%np in
  let val := fold_left step (combine [0; 1; 2]%Z (weights n)) (int 0) in
  (val / flt (np_prod (repeat dx (nat_of n))))%np.

(** ** The notebook *)

(** A [lightgbm.Dataset], of which the notebook reads the [label] array.
    The labels are numbers of the same type [A] as the predictions (lightgbm
    keeps them in single precision, where the labels 0 and 1 are the same
    numbers). *)
Record Dataset : Type := { label : list A }.

(** [fl], the closure inside [focal_loss_lgb], with the [a] and [g] it closes
    over made arguments:
<<
    def fl(x,t):
        p = 1/(1+np.exp(-x))
        return -( a*t + (1-a)*(1-t) ) * (( 1 - ( t*p + (1-t)*(1-p)) )**g) * ( t*np.log(p)+(1-t)*np.log(1-p) )
>> *)
Definition fl (a g : A) (x t : value A) : result (value A) :=
  let a := flt a in
  let g := flt g in
  let x := Ok x in
  let t := Ok t in
  let p := (int 1 / (int 1 + np.exp (- x)))%np in
  (- (a * t + (int 1 - a) * (int 1 - t))
   * ((int 1 - (t * p + (int 1 - t) * (int 1 - p))) ** g)
   * (t * np.log p + (int 1 - t) * np.log (int 1 - p)))%np.

(**
<<
    def focal_loss_lgb(y_pred, dtrain, alpha, gamma):
        a,g = alpha, gamma
        y_true = dtrain.label
        def fl(x,t): ...
        partial_fl = lambda x: fl(x, y_true)
        grad = derivative(partial_fl, y_pred, n=1, dx=1e-6)
        hess = derivative(partial_fl, y_pred, n=2, dx=1e-6)
        return grad, hess
>> *)
Definition focal_loss_lgb (y_pred : list A) (dtrain : Dataset) (alpha gamma : A)
    : result (value A * value A) :=
  let a := alpha in
  let g := gamma in
  let y_true := Array (label dtrain) in
  let partial_fl := fun x => fl a g x y_true in
  grad <- derivative partial_fl (Array y_pred) n_1 lit_1e_6 ;;
  hess <- derivative partial_fl (Array y_pred) n_2 lit_1e_6 ;;
  Ok (grad, hess).

(**
<<
    def focal_loss_lgb_eval_error(y_pred, dtrain, alpha, gamma):
        a,g = alpha, gamma
        y_true = dtrain.label
        p = 1/(1+np.exp(-y_pred))
        loss = -( a*y_true + (1-a)*(1-y_true) ) * (( 1 - ( y_true*p + (1-y_true)*(1-p)) )**g) * ( y_true*np.log(p)+(1-y_true)*np.log(1-p) )
        return 'focal_loss', np.mean(loss), False
>> *)
Definition focal_loss_lgb_eval_error (y_pred : list A) (dtrain : Dataset) (alpha gamma : A)
    : result (string * A * bool) :=
  let a := flt alpha in
  let g := flt gamma in
  let y_true := Ok (Array (label dtrain)) in
  let y_pred := Ok (Array y_pred) in
  let p := (int 1 / (int 1 + np.exp (- y_pred)))%np in
  loss <- (- (a * y_true + (int 1 - a) * (int 1 - y_true))
           * ((int 1 - (y_true * p + (int 1 - y_true) * (int 1 - p))) ** g)
           * (y_true * np.log p + (int 1 - y_true) * np.log (int 1 - p)))%np ;;
  Ok ("focal_loss"%string, np_mean loss, false).

(** The estimator-style pair: the labels come first, as an array.
<<
    def focal_loss_lgb_sk(y_true, y_pred, alpha, gamma):
        a,g = alpha, gamma
        def fl(x,t): ...
        partial_fl = lambda x: fl(x, y_true)
        grad = derivative(partial_fl, y_pred, n=1, dx=1e-6)
        hess = derivative(partial_fl, y_pred, n=2, dx=1e-6)
        return grad, hess
>> *)
Definition fl_sk (a g : A) (x t : value A) : result (value A) :=
  let a := flt a in
  let g := flt g in
  let x := Ok x in
  let t := Ok t in
  let p := (int 1 / (int 1 + np.exp (- x)))%np in
  (- (a * t + (int 1 - a) * (int 1 - t))
   * ((int 1 - (t * p + (int 1 - t) * (int 1 - p))) ** g)
   * (t * np.log p + (int 1 - t) * np.log (int 1 - p)))%np.

Definition focal_loss_lgb_sk (y_true y_pred : list A) (alpha gamma : A)
    : result (value A * value A) :=
  let a := alpha in
  let g := gamma in
  let partial_fl := fun x => fl_sk a g x (Array y_true) in
  grad <- derivative partial_fl (Array y_pred) n_1 lit_1e_6 ;;
  hess <- derivative partial_fl (Array y_pred) n_2 lit_1e_6 ;;
  Ok (grad, hess).

(**
<<
    def focal_loss_lgb_eval_error_sk(y_true, y_pred, alpha, gamma):
        a,g = alpha, gamma
        p = 1/(1+np.exp(-y_pred))
        loss = -( a*y_true + (1-a)*(1-y_true) ) * (( 1 - ( y_true*p + (1-y_true)*(1-p)) )**g) * ( y_true*np.log(p)+(1-y_true)*np.log(1-p) )
        return 'focal_loss', np.mean(loss), False
>> *)
Definition focal_loss_lgb_eval_error_sk (y_true y_pred : list A) (alpha gamma : A)
    : result (string * A * bool) :=
  let a := flt alpha in
  let g := flt gamma in
  let y_true := Ok (Array y_true) in
  let y_pred := Ok (Array y_pred) in
  let p := (int 1 / (int 1 + np.exp (- y_pred)))%np in
  loss <- (- (a * y_true + (int 1 - a) * (int 1 - y_true))
           * ((int 1 - (y_true * p + (int 1 - y_true) * (int 1 - p))) ** g)
           * (y_true * np.log p + (int 1 - y_true) * np.log (int 1 - p)))%np ;;
  Ok ("focal_loss"%string, np_mean loss, false).

End Notebook.

(** ** The closed form of the specification

    Per example, with label [t], score [x] and [p = sigmoid x]:
<<
    modulating_factor = (1 - (t*p + (1-t)*(1-p)))^gamma
    class_weight      = alpha*t + (1-alpha)*(1-t)
    cross_entropy     = t*log(p) + (1-t)*log(1-p)
    loss(x,t)         = -class_weight * modulating_factor * cross_entropy
>> *)
Section ClosedForm.

Context {A : Type} `{NumPy A}.

Definition sigmoid (x : A) : A :=
  np_divide (of_int 1) (np_add (of_int 1) (np_exp (np_negative x))).

Definition modulating_factor (gamma t p : A) : A :=
  np_power
    (np_subtract (of_int 1)
       (np_add (np_multiply t p)
          (np_multiply (np_subtract (of_int 1) t) (np_subtract (of_int 1) p))))
    gamma.

Definition class_weight (alpha t : A) : A :=
  np_add (np_multiply alpha t)
    (np_multiply (np_subtract (of_int 1) alpha) (np_subtract (of_int 1) t)).

Definition cross_entropy (t p : A) : A :=
  np_add (np_multiply t (np_log p))
    (np_multiply (np_subtract (of_int 1) t) (np_log (np_subtract (of_int 1) p))).

Definition loss (alpha gamma x t : A) : A :=
  np_multiply
    (np_multiply (np_negative (class_weight alpha t))
       (modulating_factor gamma t (sigmoid x)))
    (cross_entropy t (sigmoid x)).

(** The arithmetic mean of a list. *)
Definition arithmetic_mean (l : list A) : A :=
  np_divide (fold_left np_add l (of_int 0)) (of_int (Z.of_nat (length l))).

(** The central-difference estimators of the first and of the second
    derivative of [f] at [x], with step [h]. *)
Definition central_difference_1 (f : A -> A) (x h : A) : A :=
  np_divide (np_subtract (f (np_add x h)) (f (np_subtract x h)))
    (np_multiply (of_int 2) h).

Definition central_difference_2 (f : A -> A) (x h : A) : A :=
  np_divide
    (np_add (np_subtract (f (np_add x h)) (np_multiply (of_int 2) (f x)))
       (f (np_subtract x h)))
    (np_multiply h h).

(** What [derivative] computes at one point, operation by operation. *)
Definition derivative_at (f : A -> A) (x0 : A) (n : nth_derivative) (dx : A) : A :=
  let term (k : Z) (w : A) : A :=
    np_multiply w (f (np_add x0 (np_multiply (of_int (k - 1)) dx))) in
  let val :=
    match weights n with
    | [w0; w1; w2] =>
        np_add (np_add (np_add (of_int 0) (term 0%Z w0)) (term 1%Z w1)) (term 2%Z w2)
    | _ => of_int 0
    end in
  np_divide val (np_prod (repeat dx (nat_of n))).

(** What the objective computes for one example. *)
Definition grad_at (a g x t : A) : A :=
  derivative_at (fun x' => loss a g x' t) x n_1 lit_1e_6.

Definition hess_at (a g x t : A) : A :=
  derivative_at (fun x' => loss a g x' t) x n_2 lit_1e_6.

End ClosedForm.

(** ** Arrays given entry by entry *)

Section Entries.

Context {A : Type} `{NumPy A}.

(** [pw F xs ts]: the array whose [i]-th entry is [F xs[i] ts[i]]. *)
Definition pw {X Y : Type} (F : X -> Y -> A) (xs : list X) (ts : list Y) : result (value A) :=
  Ok (Array (map2 F xs ts)).

(** [row F xs] is the array of the [F x]; [one c] the array of length 1. *)
Definition row {X : Type} (F : X -> A) (xs : list X) : result (value A) :=
  Ok (Array (map F xs)).

Definition one (c : A) : result (value A) := Ok (Array [c]).

End Entries.

(** ** The two readings of the numbers *)

(** *** Exact arithmetic *)

(** [x ** y] on the reals.  For a positive base it is [exp (y * ln x)]; any
    base to the power 0 is 1, and 0 to a positive power is 0, as numpy has
    them.  The remaining cases (a negative base, or 0 to a negative power) are
    NaN, infinity or need an integral exponent in numpy; no statement below
    reaches them. *)
Definition Rpow (x y : R) : R :=
  if Rlt_dec 0 x then Rpower x y
  else if Req_dec_T y 0 then 1%R
  else 0%R.

(** The real functions stand for numpy's where numpy's value is a real
    number.  The statements read at [R] take logarithms of [p] and [1-p] only,
    both positive there, and divide by non-zero numbers only.  This is not the
    arithmetic the code runs on: rounding, saturation of the sigmoid, NaN and
    infinity belong to the binary64 instance below. *)
#[export] Instance NumPy_R : NumPy R := {|
  of_int := IZR;
  lit_1e_6 := (/ 1000000)%R;
  np_negative := Ropp;
  np_add := Rplus;
  np_subtract := Rminus;
  np_multiply := Rmult;
  np_divide := Rdiv;
  np_power := Rpow;
  np_exp := exp;
  np_log := ln
|}.

(** *** binary64

    The arithmetic is the kernel's IEEE 754 binary64.  [exp], [log] and [pow]
    belong to the C library numpy is built on; they are modelled by a
    range reduction and a truncated series, evaluated in binary64, with the
    special values of C's Annex F.  [exp] and [log] come out within one unit
    in the last place of glibc's on the arguments tried, [pow] within a few. *)
Module F64.

Definition float_of_Z (z : Z) : float :=
  match z with
  | Z0 => 0%float
  | Zpos _ => of_uint63 (Uint63.of_Z z)
  | Zneg p => (- of_uint63 (Uint63.of_Z (Zpos p)))%float
  end.

(** The integer part of a finite float (towards zero). *)
Definition trunc (x : float) : Z :=
  match Prim2SF x with
  | S754_finite s m e =>
      let v := match e with
               | Z0 => Zpos m
               | Zpos _ => Z.shiftl (Zpos m) e
               | Zneg _ => Z.shiftr (Zpos m) (- e)
               end in
      if s then Z.opp v else v
  | _ => 0%Z
  end.

Definition ln2_hi : float := 0x1.62e42fee00000p-1%float.
Definition ln2_lo : float := 0x1.a39ef35793c76p-33%float.
Definition ln2 : float := 0x1.62e42fefa39efp-1%float.
Definition inv_ln2 : float := 0x1.71547652b82fep+0%float.
Definition sqrt_half : float := 0x1.6a09e667f3bcdp-1%float.

(** [c + c/(k+1) x + c/((k+1)(k+2)) x^2 + ...], [n] terms, by Horner's rule. *)
Fixpoint exp_series (n : nat) (k c x : float) : float :=
  match n with
  | O => 0%float
  | S n' => (c + x * exp_series n' (k + 1) (c / (k + 1)) x)%float
  end.

Definition exp (x : float) : float :=
  if is_nan x then nan
  else if (710 <? x)%float then infinity
  else if (x <? -746)%float then 0%float
  else
    let k := trunc (x * inv_ln2 + (if (x <? 0)%float then -0.5 else 0.5))%float in
    let kf := float_of_Z k in
    let r := ((x - kf * ln2_hi) - kf * ln2_lo)%float in
    Z.ldexp (exp_series 18 0 1 r) k.

(** [1/k + z2/(k+2) + z2^2/(k+4) + ...], [n] terms. *)
Fixpoint atanh_series (n : nat) (k z2 : float) : float :=
  match n with
  | O => 0%float
  | S n' => (1 / k + z2 * atanh_series n' (k + 2) z2)%float
  end.

Definition log (x : float) : float :=
  if is_nan x then nan
  else if (x <? 0)%float then nan
  else if (x =? 0)%float then neg_infinity
  else if (x =? infinity)%float then infinity
  else
    let (m, e) := Z.frexp x in
    let (m, e) := if (m <? sqrt_half)%float then ((2 * m)%float, (e - 1)%Z) else (m, e) in
    let z := ((m - 1) / (m + 1))%float in
    (2 * z * atanh_series 14 1 (z * z) + float_of_Z e * ln2)%float.

(** Whether a finite float is a whole number, and whether that number is odd;
    from 2^53 on every float is an even whole number. *)
Definition is_integer (y : float) : bool :=
  if (0x1p53 <=? abs y)%float then true
  else (float_of_Z (trunc y) =? y)%float.

Definition is_odd (y : float) : bool :=
  if (0x1p53 <=? abs y)%float then false
  else Z.odd (trunc y).

(** C's [pow]: [exp (y * log x)] on a positive base, and the special cases. *)
Definition pow (x y : float) : float :=
  if (y =? 0)%float then 1%float
  else if (x =? 1)%float then 1%float
  else if is_nan x || is_nan y then nan
  else if (x =? 0)%float then (if (0 <? y)%float then 0%float else infinity)
  else if (x <? 0)%float then
    if is_infinity y then exp (y * log (- x))%float
    else if is_integer y then
      let r := exp (y * log (- x))%float in
      if is_odd y then (- r)%float else r
    else nan
  else exp (y * log x)%float.

(** [x ** y] with a Python float [y]: numpy has its own paths for the
    exponents 1, 2, 0.5 and -1, and calls [pow] for the others. *)
Definition power (x y : float) : float :=
  if (y =? 1)%float then x
  else if (y =? 2)%float then (x * x)%float
  else if (y =? 0.5)%float then sqrt x
  else if (y =? -1)%float then (1 / x)%float
  else pow x y.

End F64.

(** binary64 arithmetic around any [exp], [log] and [**]. *)
Definition NumPy_binary64 (c_exp c_log : float -> float) (c_power : float -> float -> float)
    : NumPy float := {|
  of_int := F64.float_of_Z;
  lit_1e_6 := 0x1.0c6f7a0b5ed8dp-20%float;
  np_negative := PrimFloat.opp;
  np_add := PrimFloat.add;
  np_subtract := PrimFloat.sub;
  np_multiply := PrimFloat.mul;
  np_divide := PrimFloat.div;
  np_power := c_power;
  np_exp := c_exp;
  np_log := c_log
|}.

#[export] Instance NumPy_float : NumPy float :=
  NumPy_binary64 F64.exp F64.log F64.power.

(** *** Magnitudes in binary64

    [SFbelow k f]: [f] is a zero, or a finite number whose mantissa of [d]
    binary digits and exponent [e] satisfy [d + e <= k], so that it is below
    [2^k] in magnitude; [below k x] says so of a float. *)
Definition SFbelow (k : Z) (f : spec_float) : Prop :=
  match f with
  | S754_zero _ => True
  | S754_finite _ m e => (Zpos (digits2_pos m) + e <= k)%Z
  | _ => False
  end.

Definition below (k : Z) (x : float) : Prop := SFbelow k (Prim2SF x).

(** * Element-wise evaluation *)

Section Pointwise.

Context {A : Type} `{NumPy A}.

Lemma map2_length {X Y Z : Type} (f : X -> Y -> Z) (u : list X) (v : list Y) :
  length u = length v -> length (map2 f u v) = length u.
Proof.
  revert v; induction u as [|x u IH]; intros [|y v] E; simpl in *; try discriminate; auto.
Qed.

Lemma map2_map2 {X Y : Type} (op : A -> A -> A) (F G : X -> Y -> A) (u : list X) (v : list Y) :
  map2 op (map2 F u v) (map2 G u v) = map2 (fun x y => op (F x y) (G x y)) u v.
Proof.
  revert v; induction u as [|x u IH]; intros [|y v]; simpl; auto.
  now rewrite IH.
Qed.

Lemma map_map2 {X Y : Type} (f : A -> A) (F : X -> Y -> A) (u : list X) (v : list Y) :
  map f (map2 F u v) = map2 (fun x y => f (F x y)) u v.
Proof.
  revert v; induction u as [|x u IH]; intros [|y v]; simpl; auto.
  now rewrite IH.
Qed.

Lemma map2_map_l {X Y : Type} (h : X -> X) (F : X -> Y -> A) (u : list X) (v : list Y) :
  map2 F (map h u) v = map2 (fun x y => F (h x) y) u v.
Proof.
  revert v; induction u as [|x u IH]; intros [|y v]; simpl; auto.
  now rewrite IH.
Qed.

Lemma map2_fst {X Y : Type} (u : list X) (v : list Y) :
  length u = length v -> map2 (fun x _ => x) u v = u.
Proof.
  revert v; induction u as [|x u IH]; intros [|y v] E; simpl in *; try discriminate; auto.
  now rewrite IH by congruence.
Qed.

Lemma map2_snd {X Y : Type} (u : list X) (v : list Y) :
  length u = length v -> map2 (fun _ y => y) u v = v.
Proof.
  revert v; induction u as [|x u IH]; intros [|y v] E; simpl in *; try discriminate; auto.
  now rewrite IH by congruence.
Qed.

Lemma map2_nth {X Y Z : Type} (f : X -> Y -> Z) (u : list X) (v : list Y) i dx dy dz :
  i < length u -> length u = length v ->
  nth i (map2 f u v) dz = f (nth i u dx) (nth i v dy).
Proof.
  revert v i; induction u as [|x u IH]; intros [|y v] [|i] L E; simpl in *;
    try discriminate; try lia; auto.
  apply IH; [lia | congruence].
Qed.

Lemma pw_fst (xs : list A) {Y : Type} (ts : list Y) :
  length xs = length ts -> Ok (Array xs) = pw (fun x _ => x) xs ts.
Proof. intro E; unfold pw; now rewrite map2_fst. Qed.

Lemma pw_snd {X : Type} (xs : list X) (ts : list A) :
  length xs = length ts -> Ok (Array ts) = pw (fun _ t => t) xs ts.
Proof. intro E; unfold pw; now rewrite map2_snd. Qed.

Lemma int_flt (z : Z) : int z = flt (of_int z).
Proof. reflexivity. Qed.

Lemma lift2_flt (op : A -> A -> A) (a b : A) :
  lift2 op (flt a) (flt b) = flt (op a b).
Proof. reflexivity. Qed.

Lemma lift1_pw {X Y : Type} (f : A -> A) (F : X -> Y -> A) xs ts :
  lift1 f (pw F xs ts) = pw (fun x t => f (F x t)) xs ts.
Proof. unfold pw, lift1; simpl. now rewrite map_map2. Qed.

Lemma lift2_pw {X Y : Type} (op : A -> A -> A) (F G : X -> Y -> A) xs ts :
  lift2 op (pw F xs ts) (pw G xs ts) = pw (fun x t => op (F x t) (G x t)) xs ts.
Proof.
  unfold pw, lift2; simpl.
  assert (E : length (map2 F xs ts) = length (map2 G xs ts)).
  { clear; revert ts; induction xs as [|x xs IH]; intros [|t ts]; simpl; auto. }
  rewrite E, Nat.eqb_refl. now rewrite map2_map2.
Qed.

Lemma lift2_flt_pw {X Y : Type} (op : A -> A -> A) (s : A) (F : X -> Y -> A) xs ts :
  lift2 op (flt s) (pw F xs ts) = pw (fun x t => op s (F x t)) xs ts.
Proof. unfold pw, lift2, flt; simpl. now rewrite map_map2. Qed.

Lemma lift2_pw_flt {X Y : Type} (op : A -> A -> A) (s : A) (F : X -> Y -> A) xs ts :
  lift2 op (pw F xs ts) (flt s) = pw (fun x t => op (F x t) s) xs ts.
Proof. unfold pw, lift2, flt; simpl. now rewrite map_map2. Qed.

End Pointwise.

Create Rewrite HintDb pointwise.
#[local] Hint Rewrite @int_flt @lift2_flt @lift1_pw @lift2_pw @lift2_flt_pw @lift2_pw_flt
  : pointwise.

Section Vectorised.

Context {A : Type} `{NumPy A}.

(** On arrays of one length, [fl] is the closed-form [loss], example by example. *)
Lemma fl_pointwise (a g : A) (xs ts : list A) :
  length xs = length ts ->
  fl a g (Array xs) (Array ts) = Ok (Array (map2 (loss a g) xs ts)).
Proof.
  intro E. unfold fl.
  rewrite (pw_fst xs ts E), (pw_snd xs ts E).
  autorewrite with pointwise. reflexivity.
Qed.

Lemma map2_map2_l {X Y : Type} (f : A -> Y -> A) (F : X -> Y -> A) (u : list X) (v : list Y) :
  map2 f (map2 F u v) v = map2 (fun x y => f (F x y) y) u v.
Proof.
  revert v; induction u as [|x u IH]; intros [|y v]; simpl; auto.
  now rewrite IH.
Qed.

(** A function that works example by example still does after [pw]. *)
Lemma bind_pw (func : value A -> result (value A)) (f : A -> A -> A)
    (F : A -> A -> A) (xs ts : list A) :
  length xs = length ts ->
  (forall xs', length xs' = length ts -> func (Array xs') = Ok (Array (map2 f xs' ts))) ->
  bind (pw F xs ts) func = pw (fun x t => f (F x t) t) xs ts.
Proof.
  intros E Hf. unfold pw; simpl.
  rewrite Hf by (rewrite map2_length; auto).
  now rewrite map2_map2_l.
Qed.

(** [derivative] of such a function is [derivative_at], example by example. *)
Lemma derivative_pointwise (func : value A -> result (value A)) (f : A -> A -> A)
    (xs ts : list A) (n : nth_derivative) (dx : A) :
  length xs = length ts ->
  (forall xs', length xs' = length ts -> func (Array xs') = Ok (Array (map2 f xs' ts))) ->
  derivative func (Array xs) n dx
  = Ok (Array (map2 (fun x t => derivative_at (fun x' => f x' t) x n dx) xs ts)).
Proof.
  intros E Hf. unfold derivative.
  rewrite (pw_fst xs ts E).
  destruct n; cbn [weights map combine fold_left nat_of repeat];
    autorewrite with pointwise;
    repeat (rewrite (@bind_pw func f _ xs ts E Hf); autorewrite with pointwise);
    reflexivity.
Qed.

Lemma focal_loss_lgb_pointwise (a g : A) (xs ts : list A) :
  length xs = length ts ->
  focal_loss_lgb xs {| label := ts |} a g
  = Ok (Array (map2 (grad_at a g) xs ts), Array (map2 (hess_at a g) xs ts)).
Proof.
  intro E. unfold focal_loss_lgb. cbn [label].
  rewrite !(@derivative_pointwise _ (loss a g) xs ts _ _ E) by (intros; now apply fl_pointwise).
  reflexivity.
Qed.

Lemma focal_loss_lgb_eval_error_pointwise (a g : A) (xs ts : list A) :
  length xs = length ts ->
  focal_loss_lgb_eval_error xs {| label := ts |} a g
  = Ok ("focal_loss"%string, np_mean (Array (map2 (loss a g) xs ts)), false).
Proof.
  intro E. unfold focal_loss_lgb_eval_error. cbn [label].
  rewrite (pw_fst xs ts E), (pw_snd xs ts E).
  autorewrite with pointwise. reflexivity.
Qed.

End Vectorised.

(** * The adapters *)

Section Adapters.

Context {A : Type} `{NumPy A}.

Lemma focal_loss_lgb_sk_eq (y_pred y_true : list A) (alpha gamma : A) :
  focal_loss_lgb_sk y_true y_pred alpha gamma
  = focal_loss_lgb y_pred {| label := y_true |} alpha gamma.
Proof.
  unfold focal_loss_lgb, focal_loss_lgb_sk; cbn [label].
  change (fun x => fl_sk alpha gamma x (Array y_true))
    with (fun x => fl alpha gamma x (Array y_true)).
  reflexivity.
Qed.

Lemma focal_loss_lgb_eval_error_sk_eq (y_pred y_true : list A) (alpha gamma : A) :
  focal_loss_lgb_eval_error_sk y_true y_pred alpha gamma
  = focal_loss_lgb_eval_error y_pred {| label := y_true |} alpha gamma.
Proof.
  unfold focal_loss_lgb_eval_error, focal_loss_lgb_eval_error_sk; cbn [label].
  reflexivity.
Qed.

(** C6. The dataset-first objective, given the predictions and a dataset whose
    [label] is the label vector, returns what the labels-first objective
    returns on (labels, predictions): the same gradient and Hessian, or the
    same exception; and so do the two evaluation functions, triple for triple.
    This holds for all vectors, of any lengths, and all [alpha], [gamma]. *)
Theorem adapters_agree (y_pred y_true : list A) (alpha gamma : A) :
  focal_loss_lgb y_pred {| label := y_true |} alpha gamma
  = focal_loss_lgb_sk y_true y_pred alpha gamma
  /\ focal_loss_lgb_eval_error y_pred {| label := y_true |} alpha gamma
     = focal_loss_lgb_eval_error_sk y_true y_pred alpha gamma.
Proof.
  split; symmetry.
  - apply focal_loss_lgb_sk_eq.
  - apply focal_loss_lgb_eval_error_sk_eq.
Qed.

(** C3. On prediction and label vectors of one length, the evaluation
    function returns the name ["focal_loss"], the arithmetic mean of the
    closed-form losses [loss x_i t_i], and [false]; the labels-first variant
    returns the same triple.  (Neither the non-emptiness nor the labels being
    0 or 1 is needed for this.) *)
Theorem eval_error_is_mean_loss (alpha gamma : A) (y_pred y_true : list A) :
  length y_pred = length y_true ->
  focal_loss_lgb_eval_error y_pred {| label := y_true |} alpha gamma
  = Ok ("focal_loss"%string,
        arithmetic_mean (map2 (loss alpha gamma) y_pred y_true),
        false)
  /\ focal_loss_lgb_eval_error_sk y_true y_pred alpha gamma
     = Ok ("focal_loss"%string,
           arithmetic_mean (map2 (loss alpha gamma) y_pred y_true),
           false).
Proof.
  intro E.
  rewrite focal_loss_lgb_eval_error_sk_eq.
  rewrite focal_loss_lgb_eval_error_pointwise by exact E.
  split; reflexivity.
Qed.

(** C9. On vectors of one length, the [i]-th gradient, Hessian and loss of the
    whole-array computation are what the same functions return on the
    one-element vectors [[y_pred[i]]] and [[y_true[i]]]. *)
Theorem vectorised_is_per_example (alpha gamma : A) (y_pred y_true : list A) (i : nat) (d : A) :
  i < length y_pred ->
  length y_pred = length y_true ->
  exists grad hess losses : list A,
    focal_loss_lgb y_pred {| label := y_true |} alpha gamma = Ok (Array grad, Array hess)
    /\ fl alpha gamma (Array y_pred) (Array y_true) = Ok (Array losses)
    /\ length grad = length y_pred
    /\ length hess = length y_pred
    /\ length losses = length y_pred
    /\ focal_loss_lgb [nth i y_pred d] {| label := [nth i y_true d] |} alpha gamma
       = Ok (Array [nth i grad d], Array [nth i hess d])
    /\ fl alpha gamma (Array [nth i y_pred d]) (Array [nth i y_true d])
       = Ok (Array [nth i losses d])
    /\ focal_loss_lgb_eval_error [nth i y_pred d] {| label := [nth i y_true d] |} alpha gamma
       = Ok ("focal_loss"%string, np_mean (Array [nth i losses d]), false).
Proof.
  intros L E.
  exists (map2 (grad_at alpha gamma) y_pred y_true),
         (map2 (hess_at alpha gamma) y_pred y_true),
         (map2 (loss alpha gamma) y_pred y_true).
  rewrite !map2_length by exact E.
  rewrite !(map2_nth _ _ _ d d d L E).
  split; [now apply focal_loss_lgb_pointwise|].
  split; [now apply fl_pointwise|].
  do 3 (split; [reflexivity|]).
  split; [now rewrite focal_loss_lgb_pointwise|].
  split; [now rewrite fl_pointwise|].
  now rewrite focal_loss_lgb_eval_error_pointwise.
Qed.

End Adapters.

(** * Shapes: what is accepted, what is stretched, what raises *)

Section Broadcast.

Context {A : Type} `{NumPy A}.

Lemma row_id (xs : list A) : Ok (Array xs) = row (fun x => x) xs.
Proof. unfold row. now rewrite map_id. Qed.

Lemma lift1_row {X : Type} (f : A -> A) (F : X -> A) xs :
  lift1 f (row F xs) = row (fun x => f (F x)) xs.
Proof. unfold row, lift1; simpl. now rewrite map_map. Qed.

Lemma lift1_one (f : A -> A) c : lift1 f (one c) = one (f c).
Proof. reflexivity. Qed.

Lemma lift2_flt_row {X : Type} (op : A -> A -> A) s (F : X -> A) xs :
  lift2 op (flt s) (row F xs) = row (fun x => op s (F x)) xs.
Proof. unfold row, lift2, flt; simpl. now rewrite map_map. Qed.

Lemma lift2_row_flt {X : Type} (op : A -> A -> A) s (F : X -> A) xs :
  lift2 op (row F xs) (flt s) = row (fun x => op (F x) s) xs.
Proof. unfold row, lift2, flt; simpl. now rewrite map_map. Qed.

Lemma lift2_flt_one (op : A -> A -> A) s c : lift2 op (flt s) (one c) = one (op s c).
Proof. reflexivity. Qed.

Lemma lift2_one_flt (op : A -> A -> A) s c : lift2 op (one c) (flt s) = one (op c s).
Proof. reflexivity. Qed.

Lemma lift2_one_one (op : A -> A -> A) c d : lift2 op (one c) (one d) = one (op c d).
Proof. reflexivity. Qed.

Lemma map2_map_map {X : Type} (op : A -> A -> A) (F G : X -> A) xs :
  map2 op (map F xs) (map G xs) = map (fun x => op (F x) (G x)) xs.
Proof. induction xs as [|x xs IH]; simpl; [|rewrite IH]; reflexivity. Qed.

Lemma lift2_row_row {X : Type} (op : A -> A -> A) (F G : X -> A) xs :
  lift2 op (row F xs) (row G xs) = row (fun x => op (F x) (G x)) xs.
Proof.
  unfold row, lift2; simpl.
  rewrite !length_map, Nat.eqb_refl. now rewrite map2_map_map.
Qed.

(** An array of length 1 is stretched over the other operand, whatever its
    length. *)
Lemma lift2_one_row {X : Type} (op : A -> A -> A) c (F : X -> A) xs :
  lift2 op (one c) (row F xs) = row (fun x => op c (F x)) xs.
Proof.
  unfold row, one, lift2; simpl.
  destruct xs as [|x [|y xs]]; simpl; try reflexivity.
  now rewrite map_map.
Qed.

Lemma lift2_row_one {X : Type} (op : A -> A -> A) c (F : X -> A) xs :
  lift2 op (row F xs) (one c) = row (fun x => op (F x) c) xs.
Proof.
  unfold row, one, lift2; simpl.
  destruct xs as [|x [|y xs]]; simpl; try reflexivity.
  now rewrite map_map.
Qed.

(** Two arrays of different lengths, neither of length 1, cannot be combined. *)
Lemma ufunc2_raises (op : A -> A -> A) (l r : list A) :
  length l <> length r -> length l <> 1 -> length r <> 1 ->
  ufunc2 op (Array l) (Array r) = Raise (ValueError_broadcast (length l) (length r)).
Proof.
  intros Hlr Hl Hr. simpl.
  destruct (Nat.eqb_spec (length l) (length r)) as [E|_]; [contradiction|].
  destruct l as [|x [|x' l]], r as [|y [|y' r]]; simpl in *; try reflexivity; congruence.
Qed.

End Broadcast.

Create Rewrite HintDb broadcast.
#[local] Hint Rewrite @int_flt @lift2_flt @lift1_row @lift1_one @lift2_flt_row @lift2_row_flt
  @lift2_flt_one @lift2_one_flt @lift2_one_one @lift2_row_row @lift2_one_row @lift2_row_one
  : broadcast.

Section Shapes.

Context {A : Type} `{NumPy A}.

(** One label for all the predictions. *)
Lemma fl_one_label (a g : A) (xs : list A) (t : A) :
  fl a g (Array xs) (Array [t]) = Ok (Array (map (fun x => loss a g x t) xs)).
Proof.
  unfold fl. rewrite (row_id xs). change (Ok (Array [t])) with (one t).
  autorewrite with broadcast. reflexivity.
Qed.

(** One prediction for all the labels. *)
Lemma fl_one_prediction (a g : A) (x : A) (ts : list A) :
  fl a g (Array [x]) (Array ts) = Ok (Array (map (fun t => loss a g x t) ts)).
Proof.
  unfold fl. rewrite (row_id ts). change (Ok (Array [x])) with (one x).
  autorewrite with broadcast. reflexivity.
Qed.

(** Otherwise the first product of a label array and a prediction array,
    [t*p], raises. *)
Lemma fl_raises (a g : A) (xs ts : list A) :
  length xs <> length ts -> length xs <> 1 -> length ts <> 1 ->
  fl a g (Array xs) (Array ts) = Raise (ValueError_broadcast (length ts) (length xs)).
Proof.
  intros Hlr Hl Hr. unfold fl.
  set (p := (int 1 / (int 1 + np.exp (- Ok (Array xs))))%np).
  assert (Hp : p = Ok (Array (map (fun x => sigmoid x) xs))).
  { unfold p. rewrite (row_id xs). autorewrite with broadcast. reflexivity. }
  assert (Htp : (Ok (Array ts) * p)%np = Raise (ValueError_broadcast (length ts) (length xs))).
  { rewrite Hp. unfold lift2; cbn [bind].
    rewrite ufunc2_raises; rewrite ?length_map; auto. }
  rewrite Htp.
  rewrite (row_id ts). autorewrite with broadcast. reflexivity.
Qed.

Lemma derivative_row (func : value A -> result (value A)) (f : A -> A)
    (xs : list A) (n : nth_derivative) (dx : A) :
  (forall xs', func (Array xs') = Ok (Array (map f xs'))) ->
  derivative func (Array xs) n dx
  = Ok (Array (map (fun x => derivative_at f x n dx) xs)).
Proof.
  intro Hf.
  assert (Hb : forall F : A -> A, bind (row F xs) func = row (fun x => f (F x)) xs).
  { intro F. unfold row; simpl. now rewrite Hf, map_map. }
  unfold derivative. rewrite (row_id xs).
  destruct n; cbn [weights map combine fold_left nat_of repeat];
    autorewrite with broadcast;
    repeat (rewrite Hb; autorewrite with broadcast);
    reflexivity.
Qed.

Lemma derivative_one (func : value A -> result (value A)) (f : A -> A -> A)
    (x : A) (ts : list A) (n : nth_derivative) (dx : A) :
  (forall x', func (Array [x']) = Ok (Array (map (f x') ts))) ->
  derivative func (Array [x]) n dx
  = Ok (Array (map (fun t => derivative_at (fun x' => f x' t) x n dx) ts)).
Proof.
  intro Hf.
  assert (Hb : forall c, bind (one c) func = row (f c) ts).
  { intro c. unfold one, row; simpl. now rewrite Hf. }
  unfold derivative. change (Ok (Array [x])) with (one x).
  destruct n; cbn [weights map combine fold_left nat_of repeat];
    autorewrite with broadcast;
    repeat (rewrite Hb; autorewrite with broadcast);
    reflexivity.
Qed.

Lemma derivative_raises (func : value A -> result (value A)) (e : exn)
    (xs : list A) (n : nth_derivative) (dx : A) :
  (forall xs', length xs' = length xs -> func (Array xs') = Raise e) ->
  derivative func (Array xs) n dx = Raise e.
Proof.
  intro Hf.
  assert (Hb : forall F : A -> A, bind (row F xs) func = Raise e).
  { intro F. unfold row; simpl. apply Hf. now rewrite length_map. }
  unfold derivative. rewrite (row_id xs).
  destruct n; cbn [weights map combine fold_left nat_of repeat];
    autorewrite with broadcast;
    repeat (rewrite Hb; autorewrite with broadcast);
    reflexivity.
Qed.

(** The objective and the evaluation function in the three shapes. *)
Lemma focal_loss_lgb_one_label (a g : A) (xs : list A) (t : A) :
  focal_loss_lgb xs {| label := [t] |} a g
  = Ok (Array (map (fun x => grad_at a g x t) xs), Array (map (fun x => hess_at a g x t) xs)).
Proof.
  unfold focal_loss_lgb; cbn [label].
  rewrite !(@derivative_row _ (fun x => loss a g x t) xs) by (intro; apply fl_one_label).
  reflexivity.
Qed.

Lemma focal_loss_lgb_one_prediction (a g : A) (x : A) (ts : list A) :
  focal_loss_lgb [x] {| label := ts |} a g
  = Ok (Array (map (grad_at a g x) ts), Array (map (hess_at a g x) ts)).
Proof.
  unfold focal_loss_lgb; cbn [label].
  rewrite !(@derivative_one _ (loss a g) x ts) by (intro; apply fl_one_prediction).
  reflexivity.
Qed.

Lemma focal_loss_lgb_raises (a g : A) (xs ts : list A) :
  length xs <> length ts -> length xs <> 1 -> length ts <> 1 ->
  focal_loss_lgb xs {| label := ts |} a g
  = Raise (ValueError_broadcast (length ts) (length xs)).
Proof.
  intros Hlr Hl Hr. unfold focal_loss_lgb; cbn [label].
  rewrite (@derivative_raises _ (ValueError_broadcast (length ts) (length xs))).
  - reflexivity.
  - intros xs' E. rewrite <- E. apply fl_raises; congruence.
Qed.

Lemma focal_loss_lgb_eval_error_one_label (a g : A) (xs : list A) (t : A) :
  focal_loss_lgb_eval_error xs {| label := [t] |} a g
  = Ok ("focal_loss"%string, np_mean (Array (map (fun x => loss a g x t) xs)), false).
Proof.
  unfold focal_loss_lgb_eval_error; cbn [label].
  rewrite (row_id xs). change (Ok (Array [t])) with (one t).
  autorewrite with broadcast. reflexivity.
Qed.

Lemma focal_loss_lgb_eval_error_one_prediction (a g : A) (x : A) (ts : list A) :
  focal_loss_lgb_eval_error [x] {| label := ts |} a g
  = Ok ("focal_loss"%string, np_mean (Array (map (loss a g x) ts)), false).
Proof.
  unfold focal_loss_lgb_eval_error; cbn [label].
  rewrite (row_id ts). change (Ok (Array [x])) with (one x).
  autorewrite with broadcast. reflexivity.
Qed.

Lemma focal_loss_lgb_eval_error_raises (a g : A) (xs ts : list A) :
  length xs <> length ts -> length xs <> 1 -> length ts <> 1 ->
  focal_loss_lgb_eval_error xs {| label := ts |} a g
  = Raise (ValueError_broadcast (length ts) (length xs)).
Proof.
  intros Hlr Hl Hr.
  pose proof (@fl_raises a g xs ts Hlr Hl Hr) as Hfl.
  unfold focal_loss_lgb_eval_error; cbn [label].
  unfold fl in Hfl. cbv zeta in Hfl |- *. rewrite Hfl. reflexivity.
Qed.

End Shapes.

Section Validation.

Context {A : Type} `{NumPy A}.

(** C2, as the code has it.  Neither function inspects its arguments: the
    label values, [alpha] and [gamma] are never tested, and the lengths only
    by numpy's broadcasting.  So a call returns a gradient and a Hessian (a
    metric triple) whenever the two vectors have one length, or either has
    length 1 and is stretched over the other; and it raises numpy's
    broadcasting [ValueError] exactly in the remaining case, two different
    lengths neither of which is 1. *)
Theorem only_broadcasting_is_checked (alpha gamma : A) (y_pred y_true : list A) :
  (length y_pred = length y_true \/ length y_pred = 1 \/ length y_true = 1 ->
   exists (grad hess : list A) (v : A),
     focal_loss_lgb y_pred {| label := y_true |} alpha gamma = Ok (Array grad, Array hess)
     /\ length grad = (if Nat.eqb (length y_pred) 1 then length y_true else length y_pred)
     /\ length hess = length grad
     /\ focal_loss_lgb_eval_error y_pred {| label := y_true |} alpha gamma
        = Ok ("focal_loss"%string, v, false))
  /\ (length y_pred <> length y_true -> length y_pred <> 1 -> length y_true <> 1 ->
      focal_loss_lgb y_pred {| label := y_true |} alpha gamma
      = Raise (ValueError_broadcast (length y_true) (length y_pred))
      /\ focal_loss_lgb_eval_error y_pred {| label := y_true |} alpha gamma
         = Raise (ValueError_broadcast (length y_true) (length y_pred))).
Proof.
  split.
  - intros [E | [E | E]].
    + exists (map2 (grad_at alpha gamma) y_pred y_true),
             (map2 (hess_at alpha gamma) y_pred y_true),
             (np_mean (Array (map2 (loss alpha gamma) y_pred y_true))).
      rewrite !map2_length by exact E.
      split; [now apply focal_loss_lgb_pointwise|].
      split; [destruct (Nat.eqb_spec (length y_pred) 1); congruence|].
      split; [reflexivity|].
      now apply focal_loss_lgb_eval_error_pointwise.
    + destruct y_pred as [|x [|x' xs]]; try discriminate.
      exists (map (grad_at alpha gamma x) y_true),
             (map (hess_at alpha gamma x) y_true),
             (np_mean (Array (map (loss alpha gamma x) y_true))).
      rewrite !length_map.
      split; [apply focal_loss_lgb_one_prediction|].
      split; [reflexivity|].
      split; [reflexivity|].
      apply focal_loss_lgb_eval_error_one_prediction.
    + destruct y_true as [|t [|t' ts]]; try discriminate.
      exists (map (fun x => grad_at alpha gamma x t) y_pred),
             (map (fun x => hess_at alpha gamma x t) y_pred),
             (np_mean (Array (map (fun x => loss alpha gamma x t) y_pred))).
      rewrite !length_map.
      split; [apply focal_loss_lgb_one_label|].
      split; [destruct (Nat.eqb_spec (length y_pred) 1); simpl; congruence|].
      split; [reflexivity|].
      apply focal_loss_lgb_eval_error_one_label.
  - intros Hlr Hl Hr. split.
    + now apply focal_loss_lgb_raises.
    + now apply focal_loss_lgb_eval_error_raises.
Qed.

End Validation.

(** * binary64: NaN and infinity *)

Section Binary64.

Open Scope float_scope.

(** The model of the C library at a few arguments: the special values, and
    two values that are glibc's to the last bit. *)
Example exp_log_special_values :
  F64.exp 0 = 1 /\ F64.log 1 = 0 /\ F64.log 0 = neg_infinity
  /\ F64.exp neg_infinity = 0 /\ F64.exp infinity = infinity
  /\ F64.log (-1) = nan /\ F64.power 0 0 = 1 /\ F64.power 0.5 2 = 0.25.
Proof. repeat split; reflexivity. Qed.

Example exp_log_values :
  F64.exp (-50) = 0x1.d257d547e083fp-73
  /\ F64.exp 50 = 0x1.19103e4080b45p+72
  /\ F64.log 2 = 0x1.62e42fefa39efp-1.
Proof. repeat split; reflexivity. Qed.

(** From the score 37 on, [exp (-x)] is below half the spacing of the floats
    at 1, and the sigmoid is exactly 1. *)
Example sigmoid_saturates :
  (sigmoid 36 <? 1) = true /\ sigmoid 37 = 1 /\ 1 + F64.exp (-37) = 1.
Proof. repeat split; reflexivity. Qed.

(** NaN absorbs. *)
Lemma mul_nan_r (x : float) : x * nan = nan.
Proof.
  apply Prim2SF_inj. rewrite mul_spec.
  change (Prim2SF nan) with S754_nan.
  unfold SF64mul, SFmul. destruct (Prim2SF x); reflexivity.
Qed.

Lemma add_nan_r (x : float) : x + nan = nan.
Proof.
  apply Prim2SF_inj. rewrite add_spec.
  change (Prim2SF nan) with S754_nan.
  unfold SF64add, SFadd. destruct (Prim2SF x); reflexivity.
Qed.

(** Whatever [exp], [log] and [**] the C library supplies: once [exp (-x)]
    is too small to change 1 when added to it, [p] is exactly 1, and an
    example of label 1 has the loss [... * (1 * log 1 + 0 * log 0)], which is
    NaN as soon as [log 0] is minus infinity. *)
Lemma saturated_sigmoid_is_nan (c_exp c_log : float -> float)
    (c_power : float -> float -> float) (a g x : float) :
  1 + c_exp (- x) = 1 ->
  c_log 0 = neg_infinity ->
  @fl float (NumPy_binary64 c_exp c_log c_power) a g (Array [x]) (Array [1])
  = Ok (Array [nan]).
Proof.
  intros Hexp Hlog.
  rewrite fl_pointwise by reflexivity.
  cbn [map2]. do 3 f_equal.
  unfold loss, cross_entropy, sigmoid.
  cbn [of_int np_negative np_add np_subtract np_multiply np_divide np_power np_exp
       np_log NumPy_binary64].
  change (F64.float_of_Z 1) with 1.
  rewrite Hexp.
  change (1 / 1) with 1. change (1 - 1) with 0.
  rewrite Hlog.
  change (0 * neg_infinity) with nan.
  now rewrite add_nan_r, mul_nan_r.
Qed.

(** C10. On two empty vectors the evaluation functions raise nothing: they
    return the name, NaN (the mean of no element, 0/0) and [false], whatever
    [alpha] and [gamma], and whatever [exp], [log] and [**] are. *)
Theorem eval_error_of_nothing_is_nan (c_exp c_log : float -> float)
    (c_power : float -> float -> float) (alpha gamma : float) :
  @focal_loss_lgb_eval_error float (NumPy_binary64 c_exp c_log c_power)
    [] {| label := [] |} alpha gamma
  = Ok ("focal_loss"%string, nan, false)
  /\ @focal_loss_lgb_eval_error_sk float (NumPy_binary64 c_exp c_log c_power)
       [] [] alpha gamma
     = Ok ("focal_loss"%string, nan, false).
Proof.
  rewrite focal_loss_lgb_eval_error_sk_eq.
  rewrite focal_loss_lgb_eval_error_pointwise by reflexivity.
  split; reflexivity.
Qed.

(** C2 fails on the code.  The labels 2, [alpha = 7] and [gamma = -1] are
    accepted: the objective returns gradients and Hessians and the metric is
    an ordinary number.  So are three predictions against one label: the label
    is stretched over the predictions. *)
Lemma invalid_arguments_are_accepted :
  (exists g h v : float,
     focal_loss_lgb [0; 0; 0] {| label := [2; 2; 2] |} 7 (-1)
     = Ok (Array [g; g; g], Array [h; h; h])
     /\ focal_loss_lgb_eval_error [0; 0; 0] {| label := [2; 2; 2] |} 7 (-1)
        = Ok ("focal_loss"%string, v, false)
     /\ is_finite g = true /\ is_finite h = true /\ is_finite v = true)
  /\ (exists g h v : float,
        focal_loss_lgb [0; 0; 0] {| label := [1] |} 0.25 2
        = Ok (Array [g; g; g], Array [h; h; h])
        /\ focal_loss_lgb_eval_error [0; 0; 0] {| label := [1] |} 0.25 2
           = Ok ("focal_loss"%string, v, false)
        /\ is_finite g = true /\ is_finite h = true /\ is_finite v = true).
Proof.
  split; do 3 eexists.
  - split; [vm_compute; reflexivity|].
    split; [vm_compute; reflexivity|].
    repeat split; vm_compute; reflexivity.
  - split; [vm_compute; reflexivity|].
    split; [vm_compute; reflexivity|].
    repeat split; vm_compute; reflexivity.
Qed.

(** C1 fails on the code: nothing clamps [p].  At the score 50 the sigmoid
    rounds to exactly 1; with the label 1 the loss is then [0 * log 0], NaN,
    for every [alpha] and [gamma], and so are the gradient, the Hessian and
    the metric; with the label 0 the loss is [-log 0], infinite. *)
Lemma extreme_score_is_not_finite :
  sigmoid 50 = 1
  /\ (forall alpha gamma : float,
        fl alpha gamma (Array [50]) (Array [1]) = Ok (Array [nan]))
  /\ focal_loss_lgb [50] {| label := [1] |} 0.25 2 = Ok (Array [nan], Array [nan])
  /\ focal_loss_lgb_eval_error [50] {| label := [1] |} 0.25 2
     = Ok ("focal_loss"%string, nan, false)
  /\ fl 0.25 2 (Array [50]) (Array [0]) = Ok (Array [infinity]).
Proof.
  split; [reflexivity|].
  split; [intros; apply saturated_sigmoid_is_nan; reflexivity|].
  repeat split; vm_compute; reflexivity.
Qed.

(** C5 fails on the code as it runs: at the score 50 an example of label 1
    has the loss NaN, and [0 <= NaN] is false. *)
Lemma loss_at_extreme_score_is_not_nonnegative :
  exists l : float,
    fl 0.25 2 (Array [50]) (Array [1]) = Ok (Array [l])
    /\ (0 <=? l) = false.
Proof.
  eexists. split; vm_compute; reflexivity.
Qed.


End Binary64.

(** * Exact arithmetic: the values of the closed form *)

(** Reads the operations of the interface as those of [R]. *)
Ltac in_R :=
  cbn [of_int lit_1e_6 np_negative np_add np_subtract np_multiply np_divide
       np_power np_exp np_log NumPy_R].

Section Exact.

Open Scope R_scope.

(** The sigmoid lies strictly between 0 and 1, and increases. *)
Lemma sigmoid_bounds (x : R) : 0 < sigmoid x < 1.
Proof.
  unfold sigmoid; simpl.
  pose proof (exp_pos (- x)) as He.
  split.
  - apply Rdiv_lt_0_compat; lra.
  - apply (Rmult_lt_reg_r (1 + exp (- x))); [lra|].
    unfold Rdiv. rewrite Rmult_assoc, Rinv_l by lra. lra.
Qed.

Lemma sigmoid_increasing (x y : R) : x < y -> sigmoid x < sigmoid y.
Proof.
  intro L. unfold sigmoid; simpl.
  pose proof (exp_pos (- x)) as Hx. pose proof (exp_pos (- y)) as Hy.
  assert (He : exp (- y) < exp (- x)) by (apply exp_increasing; lra).
  unfold Rdiv. rewrite !Rmult_1_l.
  apply Rinv_lt_contravar; [|lra].
  apply Rmult_lt_0_compat; lra.
Qed.

Lemma ln_negative (p : R) : 0 < p < 1 -> ln p < 0.
Proof.
  intros [H0 H1]. rewrite <- ln_1. now apply ln_increasing.
Qed.

Lemma Rpow_positive (b g : R) : 0 < b -> Rpow b g = Rpower b g /\ 0 < Rpow b g.
Proof.
  intro Hb. unfold Rpow. destruct (Rlt_dec 0 b) as [_|N]; [|contradiction].
  split; [reflexivity|]. unfold Rpower. apply exp_pos.
Qed.

Lemma Rpow_0 (b : R) : Rpow b 0 = 1.
Proof.
  unfold Rpow. destruct (Rlt_dec 0 b) as [Hb|_].
  - now apply Rpower_O.
  - destruct (Req_dec_T 0 0) as [_|N]; [reflexivity|contradiction].
Qed.

(** The closed form at the label 1 and at the label 0. *)
Lemma loss_label_1 (a g x : R) :
  loss a g x 1 = a * Rpower (1 - sigmoid x) g * (- ln (sigmoid x)).
Proof.
  pose proof (sigmoid_bounds x) as [H0 H1].
  unfold loss, class_weight, modulating_factor, cross_entropy; in_R.
  replace (1 - (1 * sigmoid x + (1 - 1) * (1 - sigmoid x))) with (1 - sigmoid x) by ring.
  destruct (@Rpow_positive (1 - sigmoid x) g) as [-> _]; [lra|].
  ring.
Qed.

Lemma loss_label_0 (a g x : R) :
  loss a g x 0 = (1 - a) * Rpower (sigmoid x) g * (- ln (1 - sigmoid x)).
Proof.
  pose proof (sigmoid_bounds x) as [H0 H1].
  unfold loss, class_weight, modulating_factor, cross_entropy; in_R.
  replace (1 - (0 * sigmoid x + (1 - 0) * (1 - sigmoid x))) with (sigmoid x) by ring.
  destruct (@Rpow_positive (sigmoid x) g) as [-> _]; [lra|].
  ring.
Qed.

Lemma loss_nonneg (a g x t : R) :
  0 <= a <= 1 -> t = 0 \/ t = 1 -> 0 <= loss a g x t.
Proof.
  intros [Ha0 Ha1] Ht.
  pose proof (sigmoid_bounds x) as [H0 H1].
  destruct Ht as [-> | ->]; [rewrite loss_label_0 | rewrite loss_label_1].
  - assert (HP : 0 < Rpower (sigmoid x) g) by (unfold Rpower; apply exp_pos).
    assert (HL : ln (1 - sigmoid x) < 0) by (apply ln_negative; lra).
    apply Rmult_le_pos; [apply Rmult_le_pos|]; lra.
  - assert (HP : 0 < Rpower (1 - sigmoid x) g) by (unfold Rpower; apply exp_pos).
    assert (HL : ln (sigmoid x) < 0) by (apply ln_negative; lra).
    apply Rmult_le_pos; [apply Rmult_le_pos|]; lra.
Qed.

Lemma Forall_map2 {X Y Z : Type} (P : Z -> Prop) (Q : Y -> Prop) (f : X -> Y -> Z)
    (u : list X) (v : list Y) :
  (forall x y, Q y -> P (f x y)) -> Forall Q v -> Forall P (map2 f u v).
Proof.
  intros Hf Hv. revert u; induction Hv as [|y v Hy Hv IH]; intros [|x u]; simpl; auto.
Qed.

(** C5, in exact arithmetic.  With [alpha] in [0,1] (so in particular in
    (0,1)), any [gamma] (so in particular [gamma >= 0]) and labels 0 or 1,
    every per-example loss [fl] computes is non-negative, whatever the real
    scores. *)
Theorem focal_loss_is_nonnegative (alpha gamma : R) (y_pred y_true : list R) :
  0 <= alpha <= 1 ->
  length y_pred = length y_true ->
  Forall (fun t => t = 0 \/ t = 1) y_true ->
  exists losses : list R,
    fl alpha gamma (Array y_pred) (Array y_true) = Ok (Array losses)
    /\ length losses = length y_pred
    /\ Forall (fun l => 0 <= l) losses.
Proof.
  intros Ha E Ht.
  exists (map2 (loss alpha gamma) y_pred y_true).
  split; [now apply fl_pointwise|].
  split; [now apply map2_length|].
  apply Forall_map2 with (Q := fun t => t = 0 \/ t = 1); [|exact Ht].
  intros x t Hx. now apply loss_nonneg.
Qed.

(** C8. With [gamma = 0] the loss [fl] computes is the weighted
    cross-entropy, for every score, label and [alpha]. *)
Theorem gamma_zero_is_weighted_cross_entropy (alpha : R) (y_pred y_true : list R) :
  length y_pred = length y_true ->
  fl alpha 0 (Array y_pred) (Array y_true)
  = Ok (Array (map2 (fun x t =>
                       let p := sigmoid x in
                       - (alpha * t + (1 - alpha) * (1 - t))
                       * (t * ln p + (1 - t) * ln (1 - p)))
                    y_pred y_true)).
Proof.
  intro E. rewrite fl_pointwise by exact E.
  do 2 f_equal.
  revert y_true E; induction y_pred as [|x xs IH]; intros [|t ts] E; simpl in *;
    try reflexivity; try discriminate.
  f_equal; [|apply IH; congruence].
  unfold loss, modulating_factor, class_weight, cross_entropy; in_R.
  rewrite Rpow_0. ring.
Qed.

(** In exact arithmetic [derivative] is the textbook central difference. *)
Lemma derivative_at_first (f : R -> R) (x h : R) :
  h <> 0 -> derivative_at f x n_1 h = central_difference_1 f x h.
Proof.
  intro Hh. unfold derivative_at, central_difference_1.
  cbn [weights map nat_of repeat np_prod fold_left Z.sub Z.add Z.opp Z.pos_sub Z.succ_double
       Z.pred_double Z.double Pos.pred_double]; in_R.
  replace (x + -1 * h) with (x - h) by ring.
  replace (x + 1 * h) with (x + h) by ring.
  field. exact Hh.
Qed.

Lemma derivative_at_second (f : R -> R) (x h : R) :
  h <> 0 -> derivative_at f x n_2 h = central_difference_2 f x h.
Proof.
  intro Hh. unfold derivative_at, central_difference_2.
  cbn [weights map nat_of repeat np_prod fold_left Z.sub Z.add Z.opp Z.pos_sub Z.succ_double
       Z.pred_double Z.double Pos.pred_double]; in_R.
  replace (x + -1 * h) with (x - h) by ring.
  replace (x + 0 * h) with x by ring.
  replace (x + 1 * h) with (x + h) by ring.
  field. exact Hh.
Qed.

Lemma step_nonzero : / 1000000 <> 0.
Proof. apply Rinv_neq_0_compat. lra. Qed.

(** On a label 0 or 1 the closed form of the specification, written with the
    functions of real analysis, is what [loss] is at the reals. *)
Lemma loss_closed_form (a g x t : R) :
  t = 0 \/ t = 1 ->
  loss a g x t
  = (let p := 1 / (1 + exp (- x)) in
     - (a * t + (1 - a) * (1 - t))
     * Rpower (1 - (t * p + (1 - t) * (1 - p))) g
     * (t * ln p + (1 - t) * ln (1 - p))).
Proof.
  intros [-> | ->]; [rewrite loss_label_0 | rewrite loss_label_1];
    unfold sigmoid; in_R; cbv zeta.
  - replace (1 - (0 * (1 / (1 + exp (- x))) + (1 - 0) * (1 - 1 / (1 + exp (- x)))))
      with (1 / (1 + exp (- x))) by ring.
    ring.
  - replace (1 - (1 * (1 / (1 + exp (- x))) + (1 - 1) * (1 - 1 / (1 + exp (- x)))))
      with (1 - 1 / (1 + exp (- x))) by ring.
    ring.
Qed.


(** The loss of a positive example falls as its score rises; that of a
    negative example rises. *)
Lemma loss_label_1_decreasing (a g x y : R) :
  0 < a -> 0 <= g -> x < y -> loss a g y 1 < loss a g x 1.
Proof.
  intros Ha Hg L. rewrite !loss_label_1.
  pose proof (sigmoid_bounds x) as [Hx0 Hx1].
  pose proof (sigmoid_bounds y) as [Hy0 Hy1].
  pose proof (sigmoid_increasing L) as Hs.
  assert (HPy : 0 < Rpower (1 - sigmoid y) g) by (unfold Rpower; apply exp_pos).
  assert (HP : Rpower (1 - sigmoid y) g <= Rpower (1 - sigmoid x) g)
    by (apply Rle_Rpower_l; lra).
  assert (HLy : ln (sigmoid y) < 0) by (apply ln_negative; lra).
  assert (HL : ln (sigmoid x) < ln (sigmoid y)) by (apply ln_increasing; lra).
  apply Rle_lt_trans with (a * Rpower (1 - sigmoid x) g * - ln (sigmoid y)).
  - apply Rmult_le_compat_r; [lra|]. apply Rmult_le_compat_l; lra.
  - apply Rmult_lt_compat_l; [|lra]. apply Rmult_lt_0_compat; lra.
Qed.

Lemma loss_label_0_increasing (a g x y : R) :
  a < 1 -> 0 <= g -> x < y -> loss a g x 0 < loss a g y 0.
Proof.
  intros Ha Hg L. rewrite !loss_label_0.
  pose proof (sigmoid_bounds x) as [Hx0 Hx1].
  pose proof (sigmoid_bounds y) as [Hy0 Hy1].
  pose proof (sigmoid_increasing L) as Hs.
  assert (HPx : 0 < Rpower (sigmoid x) g) by (unfold Rpower; apply exp_pos).
  assert (HP : Rpower (sigmoid x) g <= Rpower (sigmoid y) g)
    by (apply Rle_Rpower_l; lra).
  assert (HLx : ln (1 - sigmoid x) < 0) by (apply ln_negative; lra).
  assert (HL : ln (1 - sigmoid y) < ln (1 - sigmoid x)) by (apply ln_increasing; lra).
  apply Rle_lt_trans with ((1 - a) * Rpower (sigmoid y) g * - ln (1 - sigmoid x)).
  - apply Rmult_le_compat_r; [lra|]. apply Rmult_le_compat_l; lra.
  - apply Rmult_lt_compat_l; [|lra]. apply Rmult_lt_0_compat; lra.
Qed.

(** So the gradient the objective returns is negative at a positive example
    and positive at a negative one, at every score. *)
Lemma grad_at_label_1_negative (a g x : R) : 0 < a -> 0 <= g -> grad_at a g x 1 < 0.
Proof.
  intros Ha Hg. unfold grad_at; in_R.
  rewrite derivative_at_first by apply step_nonzero.
  unfold central_difference_1; in_R.
  assert (L : x - / 1000000 < x + / 1000000) by lra.
  pose proof (loss_label_1_decreasing Ha Hg L) as D.
  assert (Hi : 0 < / (2 * / 1000000)) by (apply Rinv_0_lt_compat; lra).
  unfold Rdiv. nra.
Qed.

Lemma grad_at_label_0_positive (a g x : R) : a < 1 -> 0 <= g -> 0 < grad_at a g x 0.
Proof.
  intros Ha Hg. unfold grad_at; in_R.
  rewrite derivative_at_first by apply step_nonzero.
  unfold central_difference_1; in_R.
  assert (L : x - / 1000000 < x + / 1000000) by lra.
  pose proof (loss_label_0_increasing Ha Hg L) as D.
  unfold Rdiv. apply Rmult_lt_0_compat; [lra|]. apply Rinv_0_lt_compat. lra.
Qed.

Lemma sigmoid_0 : sigmoid 0 = / 2.
Proof.
  unfold sigmoid; in_R. rewrite Ropp_0, exp_0. lra.
Qed.

End Exact.

(** * The scenario of the specification *)

Section Scenario.

(** C7. Predictions [0, 0, 0], labels [1, 0, 1], [alpha = 0.25],
    [gamma = 2.0].  Every [p] is one half; the two examples of label 1 have
    the same loss, which is not the loss of the example of label 0; the
    gradient is negative at the two examples of label 1 and positive at the
    example of label 0.  First in exact arithmetic, then in binary64. *)
Theorem three_zero_scores :
  (sigmoid 0%R = (/ 2)%R
   /\ exists l1 l0 g1 g0 h1 h0 : R,
        fl 0.25%R 2%R (Array [0; 0; 0]%R) (Array [1; 0; 1]%R) = Ok (Array [l1; l0; l1])
        /\ l1 <> l0
        /\ focal_loss_lgb [0; 0; 0]%R {| label := [1; 0; 1]%R |} 0.25%R 2%R
           = Ok (Array [g1; g0; g1], Array [h1; h0; h1])
        /\ (g1 < 0)%R /\ (0 < g0)%R)
  /\ (sigmoid 0%float = 0.5%float
      /\ exists l1 l0 g1 g0 h1 h0 : float,
           fl 0.25%float 2%float (Array [0; 0; 0]%float) (Array [1; 0; 1]%float)
           = Ok (Array [l1; l0; l1])
           /\ (l1 =? l0)%float = false
           /\ focal_loss_lgb [0; 0; 0]%float {| label := [1; 0; 1]%float |} 0.25%float 2%float
              = Ok (Array [g1; g0; g1], Array [h1; h0; h1])
           /\ (g1 <? 0)%float = true /\ (0 <? g0)%float = true).
Proof.
  split.
  - split; [exact sigmoid_0|].
    exists (loss 0.25 2 0 1)%R, (loss 0.25 2 0 0)%R,
           (grad_at 0.25 2 0 1)%R, (grad_at 0.25 2 0 0)%R,
           (hess_at 0.25 2 0 1)%R, (hess_at 0.25 2 0 0)%R.
    split; [now rewrite fl_pointwise|].
    split.
    { rewrite loss_label_1, loss_label_0, sigmoid_0.
      replace (1 - / 2)%R with (/ 2)%R by lra.
      assert (HP : (0 < Rpower (/ 2) 2)%R) by (unfold Rpower; apply exp_pos).
      assert (HL : (ln (/ 2) < 0)%R) by (apply ln_negative; lra).
      intro Heq.
      assert (HPL : (0 < Rpower (/ 2) 2 * - ln (/ 2))%R) by (apply Rmult_lt_0_compat; lra).
      lra. }
    split; [now rewrite focal_loss_lgb_pointwise|].
    split; [apply grad_at_label_1_negative | apply grad_at_label_0_positive]; lra.
  - split; [reflexivity|].
    do 6 eexists.
    split; [vm_compute; reflexivity|].
    split; [vm_compute; reflexivity|].
    split; [vm_compute; reflexivity|].
    split; vm_compute; reflexivity.
Qed.

End Scenario.

(** * binary64: rounding without overflow

    The kernel specifies the binary64 operations by [SFmul], [SFadd], [SFsub]
    and [SFdiv], which round an exact mantissa and exponent with
    [binary_round_aux].  Rounding a number below [2^k] gives a zero or a finite
    number of magnitude at most [2^k]; so the magnitude of a product, a sum, a
    difference or a quotient of bounded floats is bounded, and none of them is
    an infinity or a NaN. *)

Section Rounding.

Open Scope Z_scope.

(** Shifting left by [d] adds [d] digits; adding 1 adds at most one. *)
Lemma digits2_pos_shift (m d : positive) :
  Zpos (digits2_pos (Pos.iter xO m d)) = Zpos (digits2_pos m) + Zpos d.
Proof.
  induction d as [|d IH] using Pos.peano_ind.
  - simpl. lia.
  - rewrite Pos.iter_succ. simpl. lia.
Qed.

Lemma digits2_pos_succ (m : positive) :
  Zpos (digits2_pos (m + 1)) <= Zpos (digits2_pos m) + 1.
Proof.
  rewrite Pos.add_1_r.
  induction m as [m IH|m IH|]; simpl; lia.
Qed.

(** [m] has [digits2_pos m] binary digits. *)
Lemma digits2_pos_bounds (m : positive) :
  2 ^ (Zpos (digits2_pos m) - 1) <= Zpos m < 2 ^ Zpos (digits2_pos m).
Proof.
  induction m as [m IH|m IH|]; cbn [digits2_pos].
  - rewrite Pos2Z.inj_succ, Z.pow_succ_r by lia.
    replace (Z.succ (Zpos (digits2_pos m)) - 1) with (Z.succ (Zpos (digits2_pos m) - 1)) by lia.
    rewrite Z.pow_succ_r by lia. lia.
  - rewrite Pos2Z.inj_succ, Z.pow_succ_r by lia.
    replace (Z.succ (Zpos (digits2_pos m)) - 1) with (Z.succ (Zpos (digits2_pos m) - 1)) by lia.
    rewrite Z.pow_succ_r by lia. lia.
  - simpl. lia.
Qed.

Lemma Zdigits2_below (m n : Z) : 0 <= n -> Z.abs m < 2 ^ n -> Zdigits2 m <= n.
Proof.
  intros Hn Hm.
  assert (P : forall p : positive, Zpos p < 2 ^ n -> Zpos (digits2_pos p) <= n).
  { intros p Hp. destruct (digits2_pos_bounds p) as [L _].
    destruct (Z.le_gt_cases (Zpos (digits2_pos p)) n) as [|G]; [assumption|].
    assert (2 ^ n <= 2 ^ (Zpos (digits2_pos p) - 1)) by (apply Z.pow_le_mono_r; lia).
    lia. }
  destruct m as [|p|p]; simpl in *; [lia | now apply P | now apply P].
Qed.

(** A shift to the right by one takes one digit away from a mantissa that is
    not negative, and leaves it not negative; [p] shifts take [p] away. *)
Lemma shr_1_digits (mrs : shr_record) :
  0 <= shr_m mrs ->
  0 <= shr_m (shr_1 mrs)
  /\ Zdigits2 (shr_m (shr_1 mrs)) = Z.max 0 (Zdigits2 (shr_m mrs) - 1).
Proof.
  destruct mrs as [[|[p|p|]|p] r s]; cbn [shr_1 shr_m Zdigits2 digits2_pos]; lia.
Qed.

Lemma iter_shr_1_digits (p : positive) (mrs : shr_record) :
  0 <= shr_m mrs ->
  0 <= shr_m (iter_pos shr_1 p mrs)
  /\ Zdigits2 (shr_m (iter_pos shr_1 p mrs)) = Z.max 0 (Zdigits2 (shr_m mrs) - Zpos p).
Proof.
  revert mrs; induction p as [p IH|p IH|]; intros mrs H; simpl iter_pos.
  - destruct (@shr_1_digits mrs H) as [H1 E1].
    destruct (IH _ H1) as [H2 E2]. destruct (IH _ H2) as [H3 E3].
    split; [exact H3|]. lia.
  - destruct (IH _ H) as [H2 E2]. destruct (IH _ H2) as [H3 E3].
    split; [exact H3|]. lia.
  - destruct (@shr_1_digits mrs H) as [H1 E1]. split; [exact H1|]. lia.
Qed.

(** Rounding to nearest adds 0 or 1 to the mantissa: at most one digit. *)
Lemma round_nearest_even_digits (m : Z) (l : location) :
  0 <= m ->
  0 <= round_nearest_even m l
  /\ Zdigits2 (round_nearest_even m l) <= Zdigits2 m + 1.
Proof.
  intro H.
  assert (S : 0 <= m + 1 /\ Zdigits2 (m + 1) <= Zdigits2 m + 1).
  { destruct m as [|p|p]; [simpl; lia| |lia].
    split; [lia|]. change (Z.pos p + 1) with (Z.pos (p + 1)). simpl.
    apply digits2_pos_succ. }
  destruct l as [|[]]; simpl; try (split; lia); try exact S.
  destruct (Z.even m); [split; lia | exact S].
Qed.

Lemma shr_m_of_loc (m : Z) (l : location) : shr_m (shr_record_of_loc m l) = m.
Proof. destruct l as [|[]]; reflexivity. Qed.

(** One shift to the exponent [fexp]: the exponent stays below 971 and the
    magnitude does not grow. *)
Lemma shr_below (mrs : shr_record) (e : Z) :
  0 <= shr_m mrs -> e <= 971 -> Zdigits2 (shr_m mrs) + e <= 1023 ->
  exists (mrs' : shr_record) (e' : Z),
    shr mrs e (fexp prec emax (Zdigits2 (shr_m mrs) + e) - e) = (mrs', e')
    /\ 0 <= shr_m mrs' /\ e' <= 971
    /\ Zdigits2 (shr_m mrs') + e' <= Z.max (Zdigits2 (shr_m mrs) + e) (-1074).
Proof.
  intros H0 He HD. unfold shr.
  destruct (fexp prec emax (Zdigits2 (shr_m mrs) + e) - e) as [|p|p] eqn:En.
  - exists mrs, e. repeat split; lia.
  - exists (iter_pos shr_1 p mrs), (e + Zpos p).
    destruct (@iter_shr_1_digits p mrs H0) as [H1 E1].
    split; [reflexivity|]. split; [exact H1|].
    rewrite E1. revert En. unfold fexp, emin, prec, emax. lia.
  - exists mrs, e. repeat split; lia.
Qed.

(** Rounding a number below [2^k] gives a zero or a finite number, of
    magnitude at most [2^k]. *)
Lemma binary_round_aux_below (s : bool) (m e : Z) (l : location) (k : Z) :
  0 <= m -> e <= 971 -> Zdigits2 m + e <= k -> -1074 <= k <= 1022 ->
  SFbelow (k + 1) (binary_round_aux prec emax s m e l).
Proof.
  intros H0 He HD Hk.
  unfold binary_round_aux, shr_fexp.
  destruct (@shr_below (shr_record_of_loc m l) e) as (mrs' & e' & E1 & H1 & He' & B1);
    rewrite ?shr_m_of_loc; try lia.
  rewrite shr_m_of_loc in E1, B1. rewrite E1.
  destruct (@round_nearest_even_digits (shr_m mrs') (loc_of_shr_record mrs') H1) as [H2 B2].
  set (m1 := round_nearest_even (shr_m mrs') (loc_of_shr_record mrs')) in *.
  cbn [shr_record_of_loc].
  destruct (@shr_below {| shr_m := m1; shr_r := false; shr_s := false |} e')
    as (mrs'' & e'' & E2 & H3 & He'' & B3); cbn [shr_m]; try lia.
  cbn [shr_m] in E2, B3. rewrite E2.
  destruct (shr_m mrs'') as [|q|q] eqn:Eq; [exact I| |lia].
  replace (e'' <=? emax - prec) with true
    by (symmetry; apply Z.leb_le; unfold emax, prec; lia).
  cbn [SFbelow]. cbn [Zdigits2] in B3. lia.
Qed.

Lemma binary_round_below (s : bool) (m : positive) (e k : Z) :
  Zpos (digits2_pos m) + e <= k -> -1074 <= k <= 1022 ->
  SFbelow (k + 1) (binary_round prec emax s m e).
Proof.
  intros HD Hk. unfold binary_round, shl_align.
  destruct (fexp prec emax (Zpos (digits2_pos m) + e) - e) as [|p|p] eqn:En.
  - apply binary_round_aux_below; cbn [Zdigits2]; try lia.
    revert En. unfold fexp, emin, prec, emax. lia.
  - apply binary_round_aux_below; cbn [Zdigits2]; try lia.
    revert En. unfold fexp, emin, prec, emax. lia.
  - apply binary_round_aux_below; cbn [Zdigits2]; rewrite ?digits2_pos_shift; try lia;
      revert En; unfold fexp, emin, prec, emax; lia.
Qed.

Lemma binary_normalize_below (m e : Z) (z : bool) (k : Z) :
  Zdigits2 m + e <= k -> -1074 <= k <= 1022 ->
  SFbelow (k + 1) (binary_normalize prec emax m e z).
Proof.
  intros HD Hk. destruct m as [|p|p]; cbn [binary_normalize]; [exact I| |];
    now apply binary_round_below.
Qed.


(** The operations, on the kernel's specification. *)
Lemma SFbelow_weaken (j k : Z) (f : spec_float) : SFbelow j f -> j <= k -> SFbelow k f.
Proof. destruct f; cbn [SFbelow]; auto. lia. Qed.

Lemma SFopp_below (k : Z) (x : spec_float) : SFbelow k x -> SFbelow k (SFopp x).
Proof. destruct x; simpl; auto. Qed.

Lemma SFmul_below (j k : Z) (x y : spec_float) :
  SFbelow j x -> SFbelow k y -> 0 <= j -> 0 <= k -> j + k <= 900 ->
  SFbelow (j + k + 1) (SFmul prec emax x y).
Proof.
  intros Hx Hy Hj Hk Hjk.
  destruct x as [sx|sx| |sx mx ex], y as [sy|sy| |sy my ey]; cbn [SFbelow] in Hx, Hy;
    try contradiction; try exact I.
  cbn [SFmul].
  destruct (digits2_pos_bounds mx) as [_ Ux]. destruct (digits2_pos_bounds my) as [_ Uy].
  apply binary_round_aux_below; try lia.
  assert (D : Zdigits2 (Zpos (mx * my)) <= Zpos (digits2_pos mx) + Zpos (digits2_pos my)).
  { apply Zdigits2_below; [lia|].
    rewrite Z.pow_add_r by lia.
    change (Z.abs (Zpos (mx * my))) with (Zpos mx * Zpos my).
    apply Z.mul_lt_mono_nonneg; lia. }
  lia.
Qed.

(** Aligning a mantissa to a smaller exponent keeps digits plus exponent. *)
Lemma shl_align_digits (m : positive) (e e' : Z) :
  e' <= e ->
  Zpos (digits2_pos (fst (shl_align m e e'))) + e' = Zpos (digits2_pos m) + e.
Proof.
  intro L. unfold shl_align.
  destruct (e' - e) as [|p|p] eqn:En; cbn [fst]; rewrite ?digits2_pos_shift; lia.
Qed.

(** A sum or a difference of two aligned mantissas. *)
Lemma aligned_sum_below (mx my : positive) (ex ey : Z) (a b : Z) (k : Z) :
  Zpos (digits2_pos mx) + ex <= k -> Zpos (digits2_pos my) + ey <= k ->
  Z.abs a = Zpos (fst (shl_align mx ex (Z.min ex ey))) ->
  Z.abs b = Zpos (fst (shl_align my ey (Z.min ex ey))) ->
  Zdigits2 (a + b) + Z.min ex ey <= k + 1.
Proof.
  intros Hx Hy Ea Eb.
  pose proof (@shl_align_digits mx ex (Z.min ex ey) (Z.le_min_l _ _)) as Dx.
  pose proof (@shl_align_digits my ey (Z.min ex ey) (Z.le_min_r _ _)) as Dy.
  destruct (digits2_pos_bounds (fst (shl_align mx ex (Z.min ex ey)))) as [_ Ux].
  destruct (digits2_pos_bounds (fst (shl_align my ey (Z.min ex ey)))) as [_ Uy].
  set (n := k - Z.min ex ey) in *.
  assert (Px : 2 ^ Zpos (digits2_pos (fst (shl_align mx ex (Z.min ex ey)))) <= 2 ^ n)
    by (apply Z.pow_le_mono_r; lia).
  assert (Py : 2 ^ Zpos (digits2_pos (fst (shl_align my ey (Z.min ex ey)))) <= 2 ^ n)
    by (apply Z.pow_le_mono_r; lia).
  assert (D : Zdigits2 (a + b) <= n + 1).
  { apply Zdigits2_below; [lia|].
    replace (n + 1) with (Z.succ n) by lia. rewrite Z.pow_succ_r by lia. lia. }
  lia.
Qed.

Lemma cond_Zopp_abs (s : bool) (m : positive) : Z.abs (cond_Zopp s (Zpos m)) = Zpos m.
Proof. destruct s; reflexivity. Qed.

Lemma SFadd_below (k : Z) (x y : spec_float) :
  SFbelow k x -> SFbelow k y -> -1074 <= k <= 1020 ->
  SFbelow (k + 2) (SFadd prec emax x y).
Proof.
  intros Hx Hy Hk.
  destruct x as [sx|sx| |sx mx ex], y as [sy|sy| |sy my ey]; cbn [SFbelow] in Hx, Hy;
    try contradiction.
  - destruct sx, sy; exact I.
  - cbn [SFadd SFbelow]. lia.
  - cbn [SFadd SFbelow]. lia.
  - cbn [SFadd]. replace (k + 2) with (k + 1 + 1) by lia.
    apply binary_normalize_below; [|lia].
    apply (@aligned_sum_below mx my ex ey); auto using cond_Zopp_abs.
Qed.

Lemma SFsub_below (k : Z) (x y : spec_float) :
  SFbelow k x -> SFbelow k y -> -1074 <= k <= 1020 ->
  SFbelow (k + 2) (SFsub prec emax x y).
Proof.
  intros Hx Hy Hk.
  destruct x as [sx|sx| |sx mx ex], y as [sy|sy| |sy my ey]; cbn [SFbelow] in Hx, Hy;
    try contradiction.
  - destruct sx, sy; exact I.
  - cbn [SFsub SFbelow]. lia.
  - cbn [SFsub SFbelow]. lia.
  - cbn [SFsub]. replace (k + 2) with (k + 1 + 1) by lia.
    apply binary_normalize_below; [|lia].
    unfold Z.sub at 1.
    apply (@aligned_sum_below mx my ex ey); auto using cond_Zopp_abs.
    rewrite Z.abs_opp. apply cond_Zopp_abs.
Qed.

(** A quotient by a finite number of magnitude at least [2^(d-1)]. *)
Lemma SFdiv_below (k : Z) (x : spec_float) (sy : bool) (my : positive) (ey : Z) :
  SFbelow k x ->
  -1000 <= k - (Zpos (digits2_pos my) + ey) <= 1000 ->
  SFbelow (k - (Zpos (digits2_pos my) + ey) + 2)
    (SFdiv prec emax x (S754_finite sy my ey)).
Proof.
  intros Hx Hk.
  destruct x as [sx|sx| |sx mx ex]; cbn [SFbelow] in Hx; try contradiction; [exact I|].
  cbn [SFdiv]. unfold SFdiv_core_binary. cbn [Zdigits2].
  set (d1 := Zpos (digits2_pos mx)) in *. set (d2 := Zpos (digits2_pos my)) in *.
  set (e' := Z.min (fexp prec emax (d1 + ex - (d2 + ey))) (ex - ey)).
  set (s := ex - ey - e').
  set (m' := match s with Z.pos _ => Z.shiftl (Z.pos mx) s | 0 => Z.pos mx | Z.neg _ => 0 end).
  assert (Hs : 0 <= s) by (unfold s, e'; lia).
  assert (Hm' : m' = Zpos mx * 2 ^ s).
  { unfold m'. destruct s as [|p|p] eqn:Es; [simpl; lia| |lia].
    apply Z.shiftl_mul_pow2. lia. }
  clearbody m'.
  pose proof (Z_div_mod m' (Zpos my) eq_refl) as Hdiv.
  destruct (Z.div_eucl m' (Zpos my)) as [q r]. destruct Hdiv as [Em Hr].
  destruct (digits2_pos_bounds mx) as [_ Ux]. destruct (digits2_pos_bounds my) as [Ly _].
  fold d1 in Ux. fold d2 in Ly.
  assert (P : 0 < 2 ^ s) by (apply Z.pow_pos_nonneg; lia).
  assert (Hq : 0 <= q) by nia.
  assert (Um : m' < 2 ^ (d1 + s)) by (rewrite Z.pow_add_r by lia; nia).
  assert (D : Zdigits2 q <= Z.max 0 (d1 + s - d2 + 1)).
  { apply Zdigits2_below; [lia|]. rewrite Z.abs_eq by exact Hq.
    destruct (Z.le_gt_cases 0 (d1 + s - d2 + 1)) as [G|G].
    - rewrite Z.max_r by lia.
      assert (E : 2 ^ (d1 + s) = 2 ^ (d1 + s - d2 + 1) * 2 ^ (d2 - 1))
        by (rewrite <- Z.pow_add_r by lia; f_equal; lia).
      assert (0 < 2 ^ (d2 - 1)) by (apply Z.pow_pos_nonneg; lia).
      nia.
    - rewrite Z.max_l by lia.
      assert (2 ^ (d1 + s) <= 2 ^ (d2 - 1)) by (apply Z.pow_le_mono_r; lia).
      simpl. nia. }
  replace (k - (d2 + ey) + 2) with (k - (d2 + ey) + 1 + 1) by lia.
  apply binary_round_aux_below; try lia.
  - unfold e', fexp, emin, prec, emax. lia.
  - unfold s, e', fexp, emin, prec, emax in *. lia.
Qed.

End Rounding.

Section Magnitude.

Open Scope float_scope.

(** The same for the primitive floats, through the kernel's axioms that the
    primitive operations are the specified ones. *)
Lemma below_weaken (j k : Z) (x : float) : below j x -> (j <= k)%Z -> below k x.
Proof. apply SFbelow_weaken. Qed.

Lemma below_opp (k : Z) (x : float) : below k x -> below k (- x).
Proof. unfold below. rewrite opp_spec. apply SFopp_below. Qed.

Lemma below_mul (j k : Z) (x y : float) :
  below j x -> below k y -> (0 <= j)%Z -> (0 <= k)%Z -> (j + k <= 900)%Z ->
  below (j + k + 1) (x * y).
Proof. unfold below. rewrite mul_spec. apply SFmul_below. Qed.

Lemma below_add (k : Z) (x y : float) :
  below k x -> below k y -> (-1074 <= k <= 1020)%Z -> below (k + 2) (x + y).
Proof. unfold below. rewrite add_spec. apply SFadd_below. Qed.

Lemma below_sub (k : Z) (x y : float) :
  below k x -> below k y -> (-1074 <= k <= 1020)%Z -> below (k + 2) (x - y).
Proof. unfold below. rewrite sub_spec. apply SFsub_below. Qed.

Lemma below_div (k : Z) (x y : float) (sy : bool) (my : positive) (ey : Z) :
  below k x -> Prim2SF y = S754_finite sy my ey ->
  (-1000 <= k - (Zpos (digits2_pos my) + ey) <= 1000)%Z ->
  below (k - (Zpos (digits2_pos my) + ey) + 2) (x / y).
Proof. unfold below. rewrite div_spec. intros Hx ->. now apply SFdiv_below. Qed.

Lemma below_is_finite (k : Z) (x : float) : below k x -> is_finite x = true.
Proof.
  unfold below, is_finite, is_nan, is_infinity.
  rewrite !eqb_spec, abs_spec.
  destruct (Prim2SF x) as [s|s| |s m e]; cbn [SFbelow]; try contradiction; intros _.
  - reflexivity.
  - unfold SFeqb. cbn [SFcompare SFabs].
    rewrite Z.compare_refl, Pos.compare_cont_refl.
    destruct s; reflexivity.
Qed.

(** A float between 0 and 1 is below 2. *)
Lemma below_of_unit_interval (a : float) :
  (0 <=? a) = true -> (a <=? 1) = true -> below 1 a.
Proof.
  unfold below. rewrite !leb_spec.
  pose proof (Prim2SF_valid a) as V.
  change (Prim2SF 0) with (S754_zero false).
  change (Prim2SF 1) with (S754_finite false 4503599627370496 (-52)).
  destruct (Prim2SF a) as [s|s| |s m e]; cbn [SFbelow]; try discriminate.
  - trivial.
  - destruct s; discriminate.
  - destruct s; [discriminate|]. intros _.
    unfold SFleb. cbn [SFcompare].
    cbn [valid_binary] in V. unfold bounded, canonical_mantissa in V.
    apply andb_prop in V. destruct V as [V _]. apply Z.eqb_eq in V.
    revert V. unfold fexp, emin, prec, emax.
    destruct (Z.compare_spec e (-52)); try discriminate; lia.
Qed.

End Magnitude.

(** Reads the operations of the interface as those of binary64. *)
Ltac in_float :=
  cbn [of_int lit_1e_6 np_negative np_add np_subtract np_multiply np_divide
       np_power np_exp np_log NumPy_float NumPy_binary64].

(** The magnitude of a float that is given in full. *)
Ltac closed_below :=
  unfold below; vm_compute;
  first [exact I | let Hc := fresh in intro Hc; discriminate Hc].

(** * binary64: the score -50 *)

Section Finite.

Open Scope float_scope.

(** A float that is at least 0 is no NaN, is not -1, and is above 0 unless
    it is a zero. *)
Lemma nonneg_float (g : float) :
  (0 <=? g) = true ->
  is_nan g = false /\ (g =? -1) = false /\ ((g =? 0) = false -> (0 <? g) = true).
Proof.
  unfold is_nan. rewrite leb_spec, ltb_spec, !eqb_spec.
  change (Prim2SF 0) with (S754_zero false).
  change (Prim2SF (-1)) with (S754_finite true 4503599627370496 (-52)).
  destruct (Prim2SF g) as [s|s| |s m e]; try discriminate.
  - intros _. repeat split. discriminate.
  - destruct s; [discriminate|]. intros _. repeat split.
  - destruct s; [discriminate|]. intros _.
    unfold SFeqb, SFltb. cbn [SFcompare].
    rewrite Z.compare_refl, Pos.compare_cont_refl. repeat split.
Qed.

(** [0 ** g] is 0 or 1 when [g >= 0], and [1 ** g] is 1. *)
Lemma power_0 (g : float) :
  (0 <=? g) = true -> F64.power 0 g = 0 \/ F64.power 0 g = 1.
Proof.
  intro Hg. destruct (nonneg_float Hg) as (Hn & Hm & Hp).
  unfold F64.power, F64.pow. rewrite Hm.
  destruct (g =? 1); [left; reflexivity|].
  destruct (g =? 2); [left; reflexivity|].
  destruct (g =? 0.5); [left; reflexivity|].
  destruct (g =? 0); [right; reflexivity|].
  change (0 =? 1) with false. change (is_nan 0) with false. rewrite Hn.
  change (0 =? 0) with true. cbn [orb].
  rewrite Hp by reflexivity. left; reflexivity.
Qed.

Lemma power_1 (g : float) : F64.power 1 g = 1.
Proof.
  unfold F64.power, F64.pow.
  destruct (g =? 1); [reflexivity|].
  destruct (g =? 2); [reflexivity|].
  destruct (g =? 0.5); [reflexivity|].
  destruct (g =? -1); [reflexivity|].
  destruct (g =? 0); reflexivity.
Qed.

(** With [alpha] in [0,1] and a label 0 or 1 the class weight is below
    [2^7]: a bound by counting operations, not a sharp one. *)
Lemma class_weight_below (a t : float) :
  below 1 a -> below 1 t -> below 1 (1 - t) -> below 7 (class_weight a t).
Proof.
  intros Ha Ht Ht'. unfold class_weight; in_float. change (F64.float_of_Z 1) with 1.
  apply (@below_add 5).
  - apply below_weaken with (j := (1 + 1 + 1)%Z); [|lia]. apply below_mul; auto; lia.
  - apply (@below_mul 3 1); auto; try lia.
    apply (@below_sub 1); auto; [closed_below|lia].
  - lia.
Qed.

(** The loss is finite wherever the modulating factor is at most 1 and the
    cross-entropy below 64 in magnitude. *)
Lemma loss_below (a g x t : float) :
  below 1 a -> below 1 t -> below 1 (1 - t) ->
  below 1 (modulating_factor g t (sigmoid x)) ->
  below 6 (cross_entropy t (sigmoid x)) ->
  below 16 (loss a g x t).
Proof.
  intros Ha Ht Ht' Hm Hc. unfold loss.
  change (@np_multiply float NumPy_float) with PrimFloat.mul.
  change (@np_negative float NumPy_float) with PrimFloat.opp.
  apply (@below_mul 9 6); auto; try lia.
  apply (@below_mul 7 1); auto; try lia.
  apply below_opp. now apply class_weight_below.
Qed.

(** So are the central differences of three such values. *)
Lemma derivative_at_finite (f : float -> float) (x0 : float) (n : nth_derivative) :
  (forall k : Z, (-1 <= k <= 1)%Z ->
     below 16 (f (np_add x0 (np_multiply (of_int k) lit_1e_6)))) ->
  is_finite (derivative_at f x0 n lit_1e_6) = true.
Proof.
  intro Hf.
  assert (T : forall (k : Z) (w : float), (-1 <= k <= 1)%Z -> below 2 w ->
            below 21 (w * f (np_add x0 (np_multiply (of_int k) lit_1e_6)))).
  { intros k w Hk Hw. apply below_weaken with (j := (2 + 16 + 1)%Z); [|lia].
    apply below_mul; auto; lia. }
  unfold derivative_at.
  destruct n; cbn [weights map nat_of repeat np_prod fold_left];
    change (@np_multiply float NumPy_float) with PrimFloat.mul;
    change (@np_add float NumPy_float) with PrimFloat.add;
    change (@np_divide float NumPy_float) with PrimFloat.div.
  - eapply below_is_finite.
    eapply (@below_div 27); [| vm_compute; reflexivity | vm_compute; split; discriminate].
    apply (@below_add 25); [|apply (@below_weaken 21); [apply T; [lia|closed_below]|lia]|lia].
    apply (@below_add 23); [|apply (@below_weaken 21); [apply T; [lia|closed_below]|lia]|lia].
    apply (@below_add 21); [closed_below|apply T; [lia|closed_below]|lia].
  - eapply below_is_finite.
    eapply (@below_div 27); [| vm_compute; reflexivity | vm_compute; split; discriminate].
    apply (@below_add 25); [|apply (@below_weaken 21); [apply T; [lia|closed_below]|lia]|lia].
    apply (@below_add 23); [|apply (@below_weaken 21); [apply T; [lia|closed_below]|lia]|lia].
    apply (@below_add 21); [closed_below|apply T; [lia|closed_below]|lia].
Qed.


(** Where the base of the modulating factor is exactly 0 or 1, as it is once
    [1 - p] has rounded to 1, the factor is 0 or 1. *)
Lemma modulating_factor_below (g t p b : float) :
  1 - (t * p + (1 - t) * (1 - p)) = b ->
  (b = 0 /\ (0 <=? g) = true) \/ b = 1 ->
  below 1 (modulating_factor g t p).
Proof.
  intros <- Hb. unfold modulating_factor; in_float. change (F64.float_of_Z 1) with 1.
  destruct Hb as [[-> Hg] | ->].
  - destruct (power_0 Hg) as [-> | ->]; closed_below.
  - rewrite power_1. closed_below.
Qed.

Lemma mean_of_one_finite (l : float) : below 16 l -> is_finite (np_mean (Array [l])) = true.
Proof.
  intro Hl. unfold np_mean, np_sum. cbn [fold_left length]. in_float.
  eapply below_is_finite.
  eapply (@below_div 18); [| vm_compute; reflexivity | vm_compute; split; discriminate].
  apply (@below_add 16); [closed_below|exact Hl|lia].
Qed.

(** At the score -50 the loss, the gradient, the Hessian and the metric are
    finite, for both labels, every [alpha] in [0,1] and every [gamma >= 0]. *)
Lemma score_minus_50_is_finite (alpha gamma t : float) :
  (0 <=? alpha) = true -> (alpha <=? 1) = true -> (0 <=? gamma) = true ->
  t = 0 \/ t = 1 ->
  exists l g h v : float,
    fl alpha gamma (Array [-50]) (Array [t]) = Ok (Array [l])
    /\ focal_loss_lgb [-50] {| label := [t] |} alpha gamma = Ok (Array [g], Array [h])
    /\ focal_loss_lgb_eval_error [-50] {| label := [t] |} alpha gamma
       = Ok ("focal_loss"%string, v, false)
    /\ is_finite l = true /\ is_finite g = true
    /\ is_finite h = true /\ is_finite v = true.
Proof.
  intros Ha0 Ha1 Hg Ht.
  pose proof (below_of_unit_interval Ha0 Ha1) as Ha.
  assert (L : forall x : float,
            In x [-50; -50 + -1 * lit_1e_6; -50 + 0 * lit_1e_6; -50 + 1 * lit_1e_6] ->
            below 16 (loss alpha gamma x t)).
  { intros x Hx. cbn [In] in Hx.
    destruct Hx as [<- | [<- | [<- | [<- | []]]]]; destruct Ht as [-> | ->];
      (apply loss_below;
       [ exact Ha | closed_below | closed_below
       | eapply modulating_factor_below;
         [ vm_compute; reflexivity
         | first [right; reflexivity | left; split; [reflexivity | exact Hg]] ]
       | closed_below ]). }
  exists (loss alpha gamma (-50) t), (grad_at alpha gamma (-50) t),
         (hess_at alpha gamma (-50) t), (np_mean (Array [loss alpha gamma (-50) t])).
  split; [now rewrite fl_pointwise|].
  split; [now rewrite focal_loss_lgb_pointwise|].
  split; [now rewrite focal_loss_lgb_eval_error_pointwise|].
  assert (D : forall k : Z, (-1 <= k <= 1)%Z ->
            below 16 (loss alpha gamma (np_add (-50) (np_multiply (of_int k) lit_1e_6)) t)).
  { intros k Hk. apply L.
    assert (K : k = (-1)%Z \/ k = 0%Z \/ k = 1%Z) by lia.
    destruct K as [-> | [-> | ->]]; cbn [In]; auto. }
  split; [eapply below_is_finite; apply L; cbn [In]; auto|].
  split; [apply (@derivative_at_finite (fun x => loss alpha gamma x t)); exact D|].
  split; [apply (@derivative_at_finite (fun x => loss alpha gamma x t)); exact D|].
  apply mean_of_one_finite. apply L; cbn [In]; auto.
Qed.

End Finite.

(** * No clamping *)

Section Clamping.

(** The sigmoid comes as close to 0 and to 1 as one likes. *)
Lemma sigmoid_unbounded_away (eps : R) :
  (0 < eps)%R -> exists x y : R, (sigmoid x < eps)%R /\ (1 - eps < sigmoid y)%R.
Proof.
  intro He.
  assert (H2 : (0 < eps / 2)%R) by lra.
  exists (ln (eps / 2)), (- ln (eps / 2))%R.
  unfold sigmoid; in_R.
  rewrite Ropp_involutive, exp_Ropp, exp_ln by exact H2.
  assert (Hi : (0 < / (eps / 2))%R) by (apply Rinv_0_lt_compat; exact H2).
  assert (Hm : (eps / 2 * / (eps / 2) = 1)%R) by (apply Rinv_r; lra).
  split.
  - apply (Rmult_lt_reg_r (1 + / (eps / 2))); [lra|].
    unfold Rdiv at 1. rewrite Rmult_assoc, Rinv_l by lra. nra.
  - apply (Rmult_lt_reg_r (1 + eps / 2)); [lra|].
    unfold Rdiv at 2. rewrite Rmult_assoc, Rinv_l by lra. nra.
Qed.

(** With [alpha = 1], [gamma = 0] and the label 1 the loss is [- ln p], and
    with [alpha = 0], [gamma = 0] and the label 0 it is [- ln (1 - p)]. *)
Lemma fl_is_minus_log (x : R) :
  fl 1%R 0%R (Array [x]) (Array [1%R]) = Ok (Array [(- ln (1 / (1 + exp (- x))))%R])
  /\ fl 0%R 0%R (Array [x]) (Array [0%R])
     = Ok (Array [(- ln (1 - 1 / (1 + exp (- x))))%R]).
Proof.
  rewrite !fl_pointwise by reflexivity. cbn [map2].
  split; do 3 f_equal;
    unfold loss, class_weight, modulating_factor, cross_entropy, sigmoid; in_R;
    rewrite Rpow_0; ring.
Qed.

(** C1, as the code has it.  In every arithmetic [fl], its copy [fl_sk],
    the two objectives and the two evaluation functions take the logarithms
    of [p = 1/(1+exp(-x))] and of [1-p] as they are computed: nothing stands
    between the sigmoid and [np.log].  In exact arithmetic [0 < p < 1] at
    every score, so on labels 0 or 1 every loss is the closed form with both
    logarithms defined, whatever the scores, [alpha] and [gamma]; and [p] is
    as close to 0 and to 1 as one likes, with the
    loss still the logarithm of that [p].  In binary64, at the score -50 the
    loss, the gradient, the Hessian and the metric are finite for both labels,
    every [alpha] in [0,1] and every [gamma >= 0].  At the score 50 [p]
    rounds to 1, and nothing is said here of what follows. *)
Theorem logarithms_of_unclamped_sigmoid :
  (forall (A : Type) (N : NumPy A) (alpha gamma : A) (y_pred y_true : list A),
     length y_pred = length y_true ->
     let unclamped := fun x t : A =>
       let p := np_divide (of_int 1) (np_add (of_int 1) (np_exp (np_negative x))) in
       np_multiply
         (np_multiply
            (np_negative
               (np_add (np_multiply alpha t)
                  (np_multiply (np_subtract (of_int 1) alpha) (np_subtract (of_int 1) t))))
            (np_power
               (np_subtract (of_int 1)
                  (np_add (np_multiply t p)
                     (np_multiply (np_subtract (of_int 1) t) (np_subtract (of_int 1) p))))
               gamma))
         (np_add (np_multiply t (np_log p))
            (np_multiply (np_subtract (of_int 1) t) (np_log (np_subtract (of_int 1) p)))) in
     let difference := fun (n : nth_derivative) (x t : A) =>
       derivative_at (fun x' => unclamped x' t) x n lit_1e_6 in
     fl alpha gamma (Array y_pred) (Array y_true)
     = Ok (Array (map2 unclamped y_pred y_true))
     /\ fl_sk alpha gamma (Array y_pred) (Array y_true)
        = Ok (Array (map2 unclamped y_pred y_true))
     /\ focal_loss_lgb y_pred {| label := y_true |} alpha gamma
        = Ok (Array (map2 (difference n_1) y_pred y_true),
              Array (map2 (difference n_2) y_pred y_true))
     /\ focal_loss_lgb_sk y_true y_pred alpha gamma
        = Ok (Array (map2 (difference n_1) y_pred y_true),
              Array (map2 (difference n_2) y_pred y_true))
     /\ focal_loss_lgb_eval_error y_pred {| label := y_true |} alpha gamma
        = Ok ("focal_loss"%string, np_mean (Array (map2 unclamped y_pred y_true)), false)
     /\ focal_loss_lgb_eval_error_sk y_true y_pred alpha gamma
        = Ok ("focal_loss"%string, np_mean (Array (map2 unclamped y_pred y_true)), false))
  /\ (forall (alpha gamma : R) (y_pred y_true : list R),
        length y_pred = length y_true ->
        Forall (fun t => t = 0 \/ t = 1)%R y_true ->
        exists (losses grad hess : list R) (v : R),
          fl alpha gamma (Array y_pred) (Array y_true) = Ok (Array losses)
          /\ focal_loss_lgb y_pred {| label := y_true |} alpha gamma
             = Ok (Array grad, Array hess)
          /\ focal_loss_lgb_eval_error y_pred {| label := y_true |} alpha gamma
             = Ok ("focal_loss"%string, v, false)
          /\ length losses = length y_pred
          /\ forall i : nat, i < length y_pred ->
               let x := nth i y_pred 0%R in
               let t := nth i y_true 0%R in
               let p := (1 / (1 + exp (- x)))%R in
               (0 < p < 1)%R
               /\ nth i losses 0%R
                  = (- (alpha * t + (1 - alpha) * (1 - t))
                     * Rpower (1 - (t * p + (1 - t) * (1 - p))) gamma
                     * (t * ln p + (1 - t) * ln (1 - p)))%R)
  /\ (forall eps : R, (0 < eps)%R ->
        exists x y : R,
          (1 / (1 + exp (- x)) < eps)%R
          /\ fl 1%R 0%R (Array [x]) (Array [1%R])
             = Ok (Array [(- ln (1 / (1 + exp (- x))))%R])
          /\ (1 - eps < 1 / (1 + exp (- y)))%R
          /\ fl 0%R 0%R (Array [y]) (Array [0%R])
             = Ok (Array [(- ln (1 - 1 / (1 + exp (- y))))%R]))
  /\ (forall alpha gamma t : float,
        (0 <=? alpha)%float = true -> (alpha <=? 1)%float = true ->
        (0 <=? gamma)%float = true ->
        t = 0%float \/ t = 1%float ->
        exists l g h v : float,
          fl alpha gamma (Array [-50]%float) (Array [t]) = Ok (Array [l])
          /\ focal_loss_lgb [-50]%float {| label := [t] |} alpha gamma
             = Ok (Array [g], Array [h])
          /\ focal_loss_lgb_eval_error [-50]%float {| label := [t] |} alpha gamma
             = Ok ("focal_loss"%string, v, false)
          /\ is_finite l = true /\ is_finite g = true
          /\ is_finite h = true /\ is_finite v = true).
Proof.
  split; [|split; [|split; [|exact score_minus_50_is_finite]]].
  - intros A N alpha gamma y_pred y_true E unclamped difference.
    rewrite focal_loss_lgb_sk_eq, focal_loss_lgb_eval_error_sk_eq.
    rewrite (focal_loss_lgb_pointwise alpha gamma y_pred y_true E).
    rewrite (focal_loss_lgb_eval_error_pointwise alpha gamma y_pred y_true E).
    change (fl_sk alpha gamma) with (fl alpha gamma).
    rewrite (fl_pointwise alpha gamma y_pred y_true E).
    repeat split; reflexivity.
  - intros alpha gamma y_pred y_true E Ht.
    exists (map2 (loss alpha gamma) y_pred y_true),
           (map2 (grad_at alpha gamma) y_pred y_true),
           (map2 (hess_at alpha gamma) y_pred y_true),
           (np_mean (Array (map2 (loss alpha gamma) y_pred y_true))).
    split; [now apply fl_pointwise|].
    split; [now apply focal_loss_lgb_pointwise|].
    split; [now apply focal_loss_lgb_eval_error_pointwise|].
    split; [now apply map2_length|].
    intros i L x t p.
    split; [exact (sigmoid_bounds x)|].
    rewrite (map2_nth _ _ _ 0%R 0%R 0%R L E).
    apply loss_closed_form.
    rewrite Forall_forall in Ht. apply Ht. apply nth_In. now rewrite <- E.
  - intros eps He.
    destruct (sigmoid_unbounded_away He) as (x & y & Hx & Hy).
    exists x, y.
    split; [exact Hx|]. split; [exact (proj1 (fl_is_minus_log x))|].
    split; [exact Hy|]. exact (proj2 (fl_is_minus_log y)).
Qed.

End Clamping.

(** * The theorems at concrete inputs *)

Section Witnesses.

(** C3 at three examples, in binary64. *)
Lemma eval_error_is_mean_loss_witness :
  length [0; 0; 0]%float = length [1; 0; 1]%float
  /\ focal_loss_lgb_eval_error [0; 0; 0]%float {| label := [1; 0; 1]%float |} 0.25%float 2%float
     = Ok ("focal_loss"%string,
           arithmetic_mean (map2 (loss 0.25%float 2%float) [0; 0; 0]%float [1; 0; 1]%float),
           false)
  /\ focal_loss_lgb_eval_error_sk [1; 0; 1]%float [0; 0; 0]%float 0.25%float 2%float
     = Ok ("focal_loss"%string,
           arithmetic_mean (map2 (loss 0.25%float 2%float) [0; 0; 0]%float [1; 0; 1]%float),
           false).
Proof.
  split; [reflexivity|].
  apply (@eval_error_is_mean_loss float NumPy_float). reflexivity.
Defined.

(** C9 at the second of three examples, in binary64. *)
Lemma vectorised_is_per_example_witness :
  1 < length [3; -1; 0.5]%float
  /\ length [3; -1; 0.5]%float = length [1; 0; 1]%float
  /\ exists grad hess losses : list float,
       focal_loss_lgb [3; -1; 0.5]%float {| label := [1; 0; 1]%float |} 0.25%float 2%float
       = Ok (Array grad, Array hess)
       /\ fl 0.25%float 2%float (Array [3; -1; 0.5]%float) (Array [1; 0; 1]%float)
          = Ok (Array losses)
       /\ length grad = 3 /\ length hess = 3 /\ length losses = 3
       /\ focal_loss_lgb [(-1)%float] {| label := [0%float] |} 0.25%float 2%float
          = Ok (Array [nth 1 grad 0%float], Array [nth 1 hess 0%float])
       /\ fl 0.25%float 2%float (Array [(-1)%float]) (Array [0%float])
          = Ok (Array [nth 1 losses 0%float])
       /\ focal_loss_lgb_eval_error [(-1)%float] {| label := [0%float] |} 0.25%float 2%float
          = Ok ("focal_loss"%string, np_mean (Array [nth 1 losses 0%float]), false).
Proof.
  split; [simpl; lia|]. split; [reflexivity|].
  apply (@vectorised_is_per_example float NumPy_float 0.25%float 2%float
           [3; -1; 0.5]%float [1; 0; 1]%float 1 0%float);
    [simpl; lia | reflexivity].
Defined.

(** C5 at the scores 50, -50 and 0, in exact arithmetic. *)
Lemma focal_loss_is_nonnegative_witness :
  (0 <= 0.25 <= 1)%R
  /\ length [50; -50; 0]%R = length [1; 0; 1]%R
  /\ Forall (fun t => t = 0 \/ t = 1)%R [1; 0; 1]%R
  /\ exists losses : list R,
       fl 0.25%R 2%R (Array [50; -50; 0]%R) (Array [1; 0; 1]%R) = Ok (Array losses)
       /\ length losses = 3
       /\ Forall (fun l => 0 <= l)%R losses.
Proof.
  assert (Ha : (0 <= 0.25 <= 1)%R) by lra.
  assert (Ht : Forall (fun t => t = 0 \/ t = 1)%R [1; 0; 1]%R)
    by (repeat (apply Forall_cons; [auto|]); apply Forall_nil).
  split; [exact Ha|]. split; [reflexivity|]. split; [exact Ht|].
  apply (@focal_loss_is_nonnegative 0.25%R 2%R [50; -50; 0]%R [1; 0; 1]%R Ha eq_refl Ht).
Defined.

(** C8 at the same scores. *)
Lemma gamma_zero_is_weighted_cross_entropy_witness :
  length [50; -50; 0]%R = length [1; 0; 1]%R
  /\ fl 0.25%R 0%R (Array [50; -50; 0]%R) (Array [1; 0; 1]%R)
     = Ok (Array (map2 (fun x t =>
                          let p := sigmoid x in
                          - (0.25 * t + (1 - 0.25) * (1 - t))
                          * (t * ln p + (1 - t) * ln (1 - p)))%R
                       [50; -50; 0]%R [1; 0; 1]%R)).
Proof.
  split; [reflexivity|].
  apply (@gamma_zero_is_weighted_cross_entropy 0.25%R [50; -50; 0]%R [1; 0; 1]%R eq_refl).
Defined.

(** C1 at the score -50 with the label 0, [alpha = 0.25] and [gamma = 2],
    in binary64. *)
Lemma logarithms_of_unclamped_sigmoid_witness :
  (0 <=? 0.25)%float = true /\ (0.25 <=? 1)%float = true /\ (0 <=? 2)%float = true
  /\ exists l g h v : float,
       fl 0.25%float 2%float (Array [-50]%float) (Array [0%float]) = Ok (Array [l])
       /\ focal_loss_lgb [-50]%float {| label := [0%float] |} 0.25%float 2%float
          = Ok (Array [g], Array [h])
       /\ focal_loss_lgb_eval_error [-50]%float {| label := [0%float] |} 0.25%float 2%float
          = Ok ("focal_loss"%string, v, false)
       /\ is_finite l = true /\ is_finite g = true
       /\ is_finite h = true /\ is_finite v = true.
Proof.
  split; [reflexivity|]. split; [reflexivity|]. split; [reflexivity|].
  exact (proj2 (proj2 (proj2 logarithms_of_unclamped_sigmoid))
           0.25%float 2%float 0%float eq_refl eq_refl eq_refl (or_introl eq_refl)).
Defined.


End Witnesses.

(** * Beyond the claims: the callbacks, and what else the functions do *)

(** ** The callbacks the notebook registers

    The training cell and the estimator cell each bind the same two names:
<<
    focal_loss = lambda x,y: focal_loss_lgb(x, y, 0.25, 2.)
    eval_error = lambda x,y: focal_loss_lgb_eval_error(x, y, 0.25, 2.)
>>
    and
<<
    focal_loss = lambda x,y: focal_loss_lgb_sk(x, y, 0.25, 2.)
    eval_error = lambda x,y: focal_loss_lgb_eval_error_sk(x, y, 0.25, 2.)
>>
    The literal [0.25] is a quarter and [2.] is two; both are exact in
    binary64, so they are written with the interface's integers. *)
Section Literals.

Context {A : Type} `{NumPy A}.

Definition lit_0_25 : A := np_divide (of_int 1) (of_int 4).
Definition lit_2 : A := of_int 2.

End Literals.

Module lgb_train.
Section Cell.

Context {A : Type} `{NumPy A}.

Definition focal_loss (x : list A) (y : @Dataset A) : result (value A * value A) :=
  focal_loss_lgb x y lit_0_25 lit_2.

Definition eval_error (x : list A) (y : @Dataset A) : result (string * A * bool) :=
  focal_loss_lgb_eval_error x y lit_0_25 lit_2.

End Cell.
End lgb_train.

Module LGBMClassifier_fit.
Section Cell.

Context {A : Type} `{NumPy A}.

Definition focal_loss (x y : list A) : result (value A * value A) :=
  focal_loss_lgb_sk x y lit_0_25 lit_2.

Definition eval_error (x y : list A) : result (string * A * bool) :=
  focal_loss_lgb_eval_error_sk x y lit_0_25 lit_2.

End Cell.
End LGBMClassifier_fit.

(** ** Shapes again: the empty input, and what stretching amounts to *)

Section MoreShapes.

Context {A : Type} `{NumPy A}.

Lemma map2_repeat_r {X Y Z : Type} (f : X -> Y -> Z) (xs : list X) (t : Y) :
  map2 f xs (repeat t (length xs)) = map (fun x => f x t) xs.
Proof. induction xs as [|x xs IH]; simpl; [|rewrite IH]; reflexivity. Qed.

Lemma map2_repeat_l {X Y Z : Type} (f : X -> Y -> Z) (x : X) (ts : list Y) :
  map2 f (repeat x (length ts)) ts = map (f x) ts.
Proof. induction ts as [|t ts IH]; simpl; [|rewrite IH]; reflexivity. Qed.

(** X1. A label vector of length 1 against any number of predictions is
    treated as that label repeated once per prediction, and a prediction
    vector of length 1 against any number of labels as that prediction
    repeated once per label: the objective and the metric of the short call
    are those of the call with the vector written out in full. *)
Theorem stretching_is_repeating (alpha gamma : A) (xs ts : list A) (x t : A) :
  focal_loss_lgb xs {| label := [t] |} alpha gamma
  = focal_loss_lgb xs {| label := repeat t (length xs) |} alpha gamma
  /\ focal_loss_lgb_eval_error xs {| label := [t] |} alpha gamma
     = focal_loss_lgb_eval_error xs {| label := repeat t (length xs) |} alpha gamma
  /\ focal_loss_lgb [x] {| label := ts |} alpha gamma
     = focal_loss_lgb (repeat x (length ts)) {| label := ts |} alpha gamma
  /\ focal_loss_lgb_eval_error [x] {| label := ts |} alpha gamma
     = focal_loss_lgb_eval_error (repeat x (length ts)) {| label := ts |} alpha gamma.
Proof.
  rewrite focal_loss_lgb_one_label, focal_loss_lgb_eval_error_one_label.
  rewrite focal_loss_lgb_one_prediction, focal_loss_lgb_eval_error_one_prediction.
  rewrite (@focal_loss_lgb_pointwise A H alpha gamma xs (repeat t (length xs)))
    by (now rewrite repeat_length).
  rewrite (@focal_loss_lgb_eval_error_pointwise A H alpha gamma xs (repeat t (length xs)))
    by (now rewrite repeat_length).
  rewrite (@focal_loss_lgb_pointwise A H alpha gamma (repeat x (length ts)) ts)
    by (now rewrite repeat_length).
  rewrite (@focal_loss_lgb_eval_error_pointwise A H alpha gamma (repeat x (length ts)) ts)
    by (now rewrite repeat_length).
  rewrite !map2_repeat_r, !map2_repeat_l.
  repeat split; reflexivity.
Qed.

(** X2. With no prediction at all the objective raises nothing when there is
    no label or one label: it returns an empty gradient and an empty Hessian.
    With two labels or more it raises the broadcasting error. *)
Theorem objective_of_no_prediction (alpha gamma : A) (ts : list A) :
  (length ts <= 1 ->
   focal_loss_lgb [] {| label := ts |} alpha gamma = Ok (Array [], Array []))
  /\ (2 <= length ts ->
      focal_loss_lgb [] {| label := ts |} alpha gamma
      = Raise (ValueError_broadcast (length ts) 0)).
Proof.
  split; intro L.
  - destruct ts as [|t [|t' ts]]; simpl in L; try lia.
    + now rewrite focal_loss_lgb_pointwise.
    + now rewrite focal_loss_lgb_one_label.
  - rewrite focal_loss_lgb_raises; simpl; try lia. reflexivity.
Qed.

End MoreShapes.

(** ** Exact arithmetic again: signs, monotonicity, symmetry

    The laws below are laws of exact arithmetic.  Each theorem states its law
    for all real inputs and, beside it, what the code returns in binary64 at
    inputs where the law holds and at inputs where rounding or saturation
    breaks it. *)

Section MoreExact.

Open Scope R_scope.

Lemma loss_positive (a g x t : R) :
  0 < a < 1 -> t = 0 \/ t = 1 -> 0 < loss a g x t.
Proof.
  intros [Ha0 Ha1] Ht.
  pose proof (sigmoid_bounds x) as [H0 H1].
  destruct Ht as [-> | ->]; [rewrite loss_label_0 | rewrite loss_label_1].
  - assert (HP : 0 < Rpower (sigmoid x) g) by (unfold Rpower; apply exp_pos).
    assert (HL : ln (1 - sigmoid x) < 0) by (apply ln_negative; lra).
    apply Rmult_lt_0_compat; [apply Rmult_lt_0_compat|]; lra.
  - assert (HP : 0 < Rpower (1 - sigmoid x) g) by (unfold Rpower; apply exp_pos).
    assert (HL : ln (sigmoid x) < 0) by (apply ln_negative; lra).
    apply Rmult_lt_0_compat; [apply Rmult_lt_0_compat|]; lra.
Qed.

Lemma fold_left_Rplus_acc (l : list R) (s : R) :
  fold_left Rplus l s = s + fold_left Rplus l 0.
Proof.
  revert s; induction l as [|x l IH]; intro s; simpl.
  - ring.
  - rewrite (IH (s + x)), (IH (0 + x)). ring.
Qed.

Lemma sum_positive (l : list R) :
  l <> [] -> Forall (fun v => 0 < v) l -> 0 < fold_left Rplus l 0.
Proof.
  intros Hne Hl. induction Hl as [|x l Hx Hl IH]; [contradiction|].
  simpl. rewrite fold_left_Rplus_acc.
  destruct l as [|y l].
  - simpl. lra.
  - assert (0 < fold_left Rplus (y :: l) 0) by (apply IH; discriminate). lra.
Qed.

(** X3. In exact arithmetic, with [alpha] strictly between 0 and 1,
    [gamma >= 0] and labels 0 or 1, the gradient the objective returns is
    negative at every example of label 1 and positive at every example of
    label 0, at every score: a step against the gradient always moves a score
    towards its label.  In binary64 the code keeps these signs at the score 0
    and loses them where the loss saturates: at the score 30 with the label 1
    and at the score -50 with the label 0 ([alpha = 0.25], [gamma = 2]) the
    gradient returned is zero. *)
Theorem gradient_sign_follows_label (alpha gamma : R) (y_pred y_true : list R) :
  0 < alpha < 1 ->
  0 <= gamma ->
  length y_pred = length y_true ->
  Forall (fun t => t = 0 \/ t = 1) y_true ->
  (exists grad hess : list R,
     focal_loss_lgb y_pred {| label := y_true |} alpha gamma = Ok (Array grad, Array hess)
     /\ forall i : nat, (i < length y_pred)%nat ->
          (nth i y_true 0 = 1 -> nth i grad 0 < 0)
          /\ (nth i y_true 0 = 0 -> 0 < nth i grad 0))
  /\ (exists (g1 g0 s1 s0 : float) (hess : list float),
        focal_loss_lgb [0; 0; 30; -50]%float {| label := [1; 0; 1; 0]%float |}
          0.25%float 2%float
        = Ok (Array [g1; g0; s1; s0], Array hess)
        /\ (g1 <? 0)%float = true /\ (0 <? g0)%float = true
        /\ (s1 =? 0)%float = true /\ (s0 =? 0)%float = true).
Proof.
  intros [Ha0 Ha1] Hg E Ht. split.
  - exists (map2 (grad_at alpha gamma) y_pred y_true),
           (map2 (hess_at alpha gamma) y_pred y_true).
    split; [now apply focal_loss_lgb_pointwise|].
    intros i L. rewrite (map2_nth _ _ _ 0 0 0 L E).
    split; intros ->.
    + now apply grad_at_label_1_negative.
    + now apply grad_at_label_0_positive.
  - do 5 eexists. split; [vm_compute; reflexivity|].
    repeat split; vm_compute; reflexivity.
Qed.

(** X4. In exact arithmetic, with [alpha] strictly between 0 and 1 and
    [gamma >= 0], the loss of an example of label 1 strictly decreases as its
    score increases, and the loss of an example of label 0 strictly
    increases.  In binary64 the code has it so between the scores 0 and 1, and
    not near saturation: the scores 36 and 36.5 with the label 1, and -37 and
    -36.5 with the label 0, have one and the same loss ([alpha = 0.25],
    [gamma = 2]). *)
Theorem loss_is_monotone_in_the_score (alpha gamma x y : R) :
  0 < alpha < 1 ->
  0 <= gamma ->
  x < y ->
  (exists lx1 ly1 lx0 ly0 : R,
     fl alpha gamma (Array [x; y]) (Array [1; 1]) = Ok (Array [lx1; ly1])
     /\ ly1 < lx1
     /\ fl alpha gamma (Array [x; y]) (Array [0; 0]) = Ok (Array [lx0; ly0])
     /\ lx0 < ly0)
  /\ (exists lx1 ly1 lx0 ly0 s1 s0 : float,
        fl 0.25%float 2%float (Array [0; 1; 36; 36.5]%float) (Array [1; 1; 1; 1]%float)
        = Ok (Array [lx1; ly1; s1; s1])
        /\ (ly1 <? lx1)%float = true
        /\ fl 0.25%float 2%float (Array [0; 1; -37; -36.5]%float) (Array [0; 0; 0; 0]%float)
           = Ok (Array [lx0; ly0; s0; s0])
        /\ (lx0 <? ly0)%float = true).
Proof.
  intros [Ha0 Ha1] Hg L. split.
  - exists (loss alpha gamma x 1), (loss alpha gamma y 1),
           (loss alpha gamma x 0), (loss alpha gamma y 0).
    split; [now rewrite fl_pointwise|].
    split; [now apply loss_label_1_decreasing|].
    split; [now rewrite fl_pointwise|].
    now apply loss_label_0_increasing.
  - do 6 eexists. split; [vm_compute; reflexivity|].
    split; [vm_compute; reflexivity|].
    split; vm_compute; reflexivity.
Qed.

Lemma mean_loss_positive (a g : R) (xs ts : list R) :
  0 < a < 1 -> xs <> [] -> length xs = length ts ->
  Forall (fun t => t = 0 \/ t = 1) ts ->
  0 < np_mean (Array (map2 (loss a g) xs ts)).
Proof.
  intros Ha Hne E Ht.
  unfold np_mean, np_sum; in_R.
  rewrite map2_length by exact E.
  apply Rdiv_lt_0_compat.
  - apply sum_positive.
    + destruct xs, ts; simpl in *; try discriminate; congruence.
    + apply Forall_map2 with (Q := fun t => t = 0 \/ t = 1); [|exact Ht].
      intros x t Hx. now apply loss_positive.
  - apply IZR_lt. destruct xs; [contradiction|]. simpl length. lia.
Qed.

(** X5. In exact arithmetic, with [alpha] strictly between 0 and 1 and labels
    0 or 1, the metric of a non-empty evaluation set is strictly positive,
    whatever the scores and [gamma]: no finite scores bring it to 0.  In
    binary64 the code returns a positive metric for the scores 0 and 1 with
    the labels 0 and 1, and the metric 0 for the score -50 with the label 0
    ([alpha = 0.25], [gamma = 2]). *)
Theorem metric_is_positive (alpha gamma : R) (y_pred y_true : list R) :
  0 < alpha < 1 ->
  y_pred <> [] ->
  length y_pred = length y_true ->
  Forall (fun t => t = 0 \/ t = 1) y_true ->
  (exists v : R,
     focal_loss_lgb_eval_error y_pred {| label := y_true |} alpha gamma
     = Ok ("focal_loss"%string, v, false)
     /\ 0 < v)
  /\ (exists v s : float,
        focal_loss_lgb_eval_error [0; 1]%float {| label := [0; 1]%float |} 0.25%float 2%float
        = Ok ("focal_loss"%string, v, false)
        /\ (0 <? v)%float = true
        /\ focal_loss_lgb_eval_error [-50]%float {| label := [0]%float |} 0.25%float 2%float
           = Ok ("focal_loss"%string, s, false)
        /\ (s =? 0)%float = true).
Proof.
  intros Ha Hne E Ht. split.
  - exists (np_mean (Array (map2 (loss alpha gamma) y_pred y_true))).
    split; [now apply focal_loss_lgb_eval_error_pointwise|].
    now apply mean_loss_positive.
  - do 2 eexists. split; [vm_compute; reflexivity|].
    split; [vm_compute; reflexivity|].
    split; vm_compute; reflexivity.
Qed.

(** The sigmoid of the opposite score is the complement. *)
Lemma sigmoid_opp (x : R) : sigmoid (- x) = 1 - sigmoid x.
Proof.
  unfold sigmoid; in_R. rewrite Ropp_involutive, exp_Ropp.
  pose proof (exp_pos x) as He.
  assert (Hi : 0 < / exp x) by (now apply Rinv_0_lt_compat).
  field. split; lra.
Qed.

Lemma loss_exchange (a g x t : R) :
  t = 0 \/ t = 1 -> loss (1 - a) g (- x) (1 - t) = loss a g x t.
Proof.
  intros [-> | ->].
  - replace (1 - 0) with 1 by ring.
    rewrite loss_label_1, loss_label_0, sigmoid_opp.
    replace (1 - (1 - sigmoid x)) with (sigmoid x) by ring. reflexivity.
  - replace (1 - 1) with 0 by ring.
    rewrite loss_label_1, loss_label_0, sigmoid_opp.
    replace (1 - (1 - sigmoid x)) with (sigmoid x) by ring.
    replace (1 - (1 - a)) with a by ring. reflexivity.
Qed.

Lemma grad_at_exchange (a g x t : R) :
  t = 0 \/ t = 1 -> grad_at (1 - a) g (- x) (1 - t) = - grad_at a g x t.
Proof.
  intro Ht. unfold grad_at; in_R.
  rewrite !derivative_at_first by apply step_nonzero.
  unfold central_difference_1; in_R.
  replace (- x + / 1000000) with (- (x - / 1000000)) by ring.
  replace (- x - / 1000000) with (- (x + / 1000000)) by ring.
  rewrite !loss_exchange by exact Ht.
  field.
Qed.

Lemma hess_at_exchange (a g x t : R) :
  t = 0 \/ t = 1 -> hess_at (1 - a) g (- x) (1 - t) = hess_at a g x t.
Proof.
  intro Ht. unfold hess_at; in_R.
  rewrite !derivative_at_second by apply step_nonzero.
  unfold central_difference_2; in_R.
  replace (- x + / 1000000) with (- (x - / 1000000)) by ring.
  replace (- x - / 1000000) with (- (x + / 1000000)) by ring.
  rewrite !loss_exchange by exact Ht.
  field.
Qed.

Lemma map2_map_both {X Y Z : Type} (f : X -> Y -> Z) (h : X -> X) (k : Y -> Y)
    (u : list X) (v : list Y) :
  map2 f (map h u) (map k v) = map2 (fun x y => f (h x) (k y)) u v.
Proof.
  revert v; induction u as [|x u IH]; intros [|y v]; simpl; auto.
  now rewrite IH.
Qed.

Lemma map2_ext_Forall {X Y Z : Type} (f f' : X -> Y -> Z) (Q : Y -> Prop)
    (u : list X) (v : list Y) :
  (forall x y, Q y -> f x y = f' x y) -> Forall Q v -> map2 f u v = map2 f' u v.
Proof.
  intros Hf Hv. revert u; induction Hv as [|y v Hy Hv IH]; intros [|x u]; simpl; auto.
  now rewrite Hf, IH.
Qed.

(** X6. Exchanging the two classes: in exact arithmetic, with labels 0 or 1,
    replacing every score [x] by [-x], every label [t] by [1-t] and [alpha] by
    [1-alpha] leaves every loss and every Hessian as it was and turns every
    gradient into its opposite; the metric is unchanged.  In binary64 the code
    has the symmetry at the score 0 and only nearly elsewhere: the score 1
    with the label 1 and [alpha = 0.25], against the score -1 with the label 0
    and [alpha = 0.75] ([gamma = 2]), gives gradients that are not opposite
    and Hessians that differ. *)
Theorem exchanging_the_classes (alpha gamma : R) (y_pred y_true : list R) :
  length y_pred = length y_true ->
  Forall (fun t => t = 0 \/ t = 1) y_true ->
  (exists grad hess : list R,
     focal_loss_lgb y_pred {| label := y_true |} alpha gamma = Ok (Array grad, Array hess)
     /\ focal_loss_lgb (map Ropp y_pred) {| label := map (fun t => 1 - t) y_true |}
          (1 - alpha) gamma
        = Ok (Array (map Ropp grad), Array hess)
     /\ fl (1 - alpha) gamma (Array (map Ropp y_pred)) (Array (map (fun t => 1 - t) y_true))
        = fl alpha gamma (Array y_pred) (Array y_true)
     /\ focal_loss_lgb_eval_error (map Ropp y_pred)
          {| label := map (fun t => 1 - t) y_true |} (1 - alpha) gamma
        = focal_loss_lgb_eval_error y_pred {| label := y_true |} alpha gamma)
  /\ (exists g0 h0 g h g' h' : float,
        focal_loss_lgb [0; 1]%float {| label := [1; 1]%float |} 0.25%float 2%float
        = Ok (Array [g0; g], Array [h0; h])
        /\ focal_loss_lgb [-0; -1]%float {| label := [0; 0]%float |} 0.75%float 2%float
           = Ok (Array [(- g0)%float; g'], Array [h0; h'])
        /\ (g' =? - g)%float = false
        /\ (h' =? h)%float = false).
Proof.
  intros E Ht. split.
  - assert (E' : length (map Ropp y_pred) = length (map (fun t => 1 - t) y_true))
      by (now rewrite !length_map).
    exists (map2 (grad_at alpha gamma) y_pred y_true),
           (map2 (hess_at alpha gamma) y_pred y_true).
    rewrite !focal_loss_lgb_pointwise, !fl_pointwise,
      !focal_loss_lgb_eval_error_pointwise by assumption.
    rewrite !map2_map_both, map_map2.
    rewrite (@map2_ext_Forall R R R _ (fun x t => - grad_at alpha gamma x t)
               (fun t => t = 0 \/ t = 1) y_pred y_true
               (fun x t Hx => @grad_at_exchange alpha gamma x t Hx) Ht).
    rewrite (@map2_ext_Forall R R R _ (hess_at alpha gamma)
               (fun t => t = 0 \/ t = 1) y_pred y_true
               (fun x t Hx => @hess_at_exchange alpha gamma x t Hx) Ht).
    rewrite (@map2_ext_Forall R R R _ (loss alpha gamma)
               (fun t => t = 0 \/ t = 1) y_pred y_true
               (fun x t Hx => @loss_exchange alpha gamma x t Hx) Ht).
    repeat split; reflexivity.
  - do 6 eexists. split; [vm_compute; reflexivity|].
    split; [vm_compute; reflexivity|].
    split; vm_compute; reflexivity.
Qed.

(** [exp h + exp (-h)] exceeds 2 unless [h = 0]. *)
Lemma exp_plus_inverse (h : R) : h <> 0 -> 2 < exp h + / exp h.
Proof.
  intro Hh. pose proof (exp_pos h) as HE.
  assert (Hne : exp h <> 1).
  { rewrite <- exp_0. intro Heq. apply Hh.
    destruct (Rtotal_order h 0) as [L | [L | L]]; [|exact L|].
    - apply exp_increasing in L. lra.
    - apply exp_increasing in L. lra. }
  apply (Rmult_lt_reg_r (exp h)); [exact HE|].
  rewrite Rmult_plus_distr_r, Rinv_l by lra.
  assert (0 < (exp h - 1) * (exp h - 1)).
  { destruct (Rtotal_order (exp h) 1) as [L | [L | L]]; [|contradiction|]; nra. }
  nra.
Qed.

(** The softplus [ln (1 + exp (-y))] is strictly convex at the midpoint. *)
Lemma softplus_midpoint (x h : R) :
  h <> 0 ->
  2 * ln (1 + exp (- x)) < ln (1 + exp (- (x + h))) + ln (1 + exp (- (x - h))).
Proof.
  intro Hh.
  pose proof (exp_pos (- x)) as He. pose proof (exp_pos h) as HE.
  assert (Hi : 0 < / exp h) by (now apply Rinv_0_lt_compat).
  replace (- (x + h)) with (- x + - h) by ring.
  replace (- (x - h)) with (- x + h) by ring.
  rewrite !exp_plus.
  generalize dependent (exp (- x)). intros e He.
  rewrite exp_Ropp.
  assert (Hm : 0 < e * / exp h) by (now apply Rmult_lt_0_compat).
  assert (Hp : 0 < e * exp h) by (now apply Rmult_lt_0_compat).
  rewrite <- ln_mult by lra.
  replace (2 * ln (1 + e)) with (ln ((1 + e) * (1 + e)))
    by (rewrite ln_mult by lra; ring).
  pose proof (exp_plus_inverse Hh) as H2.
  assert (Hc : e * 2 < e * (exp h + / exp h)) by (now apply Rmult_lt_compat_l).
  assert (Hinv : / exp h * exp h = 1) by (apply Rinv_l; lra).
  apply ln_increasing; [nra|].
  replace ((1 + e * / exp h) * (1 + e * exp h))
    with (1 + e * (exp h + / exp h) + e * e * (/ exp h * exp h)) by ring.
  rewrite Hinv. nra.
Qed.

Lemma loss_gamma_0_label_1 (a x : R) : loss a 0 x 1 = a * ln (1 + exp (- x)).
Proof.
  pose proof (sigmoid_bounds x) as [H0 H1].
  pose proof (exp_pos (- x)) as He.
  rewrite loss_label_1, Rpower_O by lra.
  unfold sigmoid; in_R. unfold Rdiv. rewrite Rmult_1_l, ln_Rinv by lra. ring.
Qed.

Lemma hess_at_gamma_0_label_1 (a x : R) : 0 < a -> 0 < hess_at a 0 x 1.
Proof.
  intro Ha. unfold hess_at; in_R.
  rewrite derivative_at_second by apply step_nonzero.
  unfold central_difference_2; in_R.
  rewrite !loss_gamma_0_label_1.
  assert (Hh : / 1000000 <> 0) by apply step_nonzero.
  pose proof (softplus_midpoint x Hh) as Hc.
  apply Rdiv_lt_0_compat; [nra|].
  assert (0 < / 1000000) by (apply Rinv_0_lt_compat; lra). nra.
Qed.

Lemma hess_at_gamma_0_label_0 (a x : R) : a < 1 -> 0 < hess_at a 0 x 0.
Proof.
  intro Ha.
  rewrite <- (@hess_at_exchange a 0 x 0) by (left; reflexivity).
  replace (1 - 0) with 1 by ring.
  apply hess_at_gamma_0_label_1. lra.
Qed.

(** X7. In exact arithmetic, with [gamma = 0], [alpha] strictly between 0 and
    1 and labels 0 or 1, every Hessian the objective returns is strictly
    positive, at every score.  In binary64 the Hessians the code returns at
    the score 0 are positive, and the one at the score 4.6 with the label 0 is
    negative ([alpha = 0.25], [gamma = 0]): the rounding errors of the three
    losses, divided by [dx * dx], outweigh the second difference. *)
Theorem hessian_is_positive_without_focusing (alpha : R) (y_pred y_true : list R) :
  0 < alpha < 1 ->
  length y_pred = length y_true ->
  Forall (fun t => t = 0 \/ t = 1) y_true ->
  (exists grad hess : list R,
     focal_loss_lgb y_pred {| label := y_true |} alpha 0 = Ok (Array grad, Array hess)
     /\ length hess = length y_pred
     /\ Forall (fun h => 0 < h) hess)
  /\ (exists (h1 h0 s : float) (grad : list float),
        focal_loss_lgb [0; 0; 4.6]%float {| label := [1; 0; 0]%float |} 0.25%float 0%float
        = Ok (Array grad, Array [h1; h0; s])
        /\ (0 <? h1)%float = true /\ (0 <? h0)%float = true
        /\ (s <? 0)%float = true).
Proof.
  intros [Ha0 Ha1] E Ht. split.
  - exists (map2 (grad_at alpha 0) y_pred y_true),
           (map2 (hess_at alpha 0) y_pred y_true).
    split; [now apply focal_loss_lgb_pointwise|].
    split; [now apply map2_length|].
    apply Forall_map2 with (Q := fun t => t = 0 \/ t = 1); [|exact Ht].
    intros x t [-> | ->].
    + now apply hess_at_gamma_0_label_0.
    + now apply hess_at_gamma_0_label_1.
  - do 4 eexists. split; [vm_compute; reflexivity|].
    repeat split; vm_compute; reflexivity.
Qed.

Lemma Rpower_decreasing_in_exponent (b g1 g2 : R) :
  0 < b < 1 -> g1 <= g2 -> Rpower b g2 <= Rpower b g1.
Proof.
  intros [Hb0 Hb1] [L | ->]; [|lra].
  left. unfold Rpower. apply exp_increasing.
  assert (ln b < 0) by (apply ln_negative; lra). nra.
Qed.

Lemma loss_decreasing_in_gamma (a g1 g2 x t : R) :
  0 <= a <= 1 -> t = 0 \/ t = 1 -> g1 <= g2 -> loss a g2 x t <= loss a g1 x t.
Proof.
  intros [Ha0 Ha1] Ht Hg.
  pose proof (sigmoid_bounds x) as [H0 H1].
  destruct Ht as [-> | ->]; rewrite ?loss_label_0, ?loss_label_1.
  - assert (HL : ln (1 - sigmoid x) < 0) by (apply ln_negative; lra).
    assert (HP : Rpower (sigmoid x) g2 <= Rpower (sigmoid x) g1)
      by (apply Rpower_decreasing_in_exponent; [lra | exact Hg]).
    apply Rmult_le_compat_r; [lra|]. apply Rmult_le_compat_l; lra.
  - assert (HL : ln (sigmoid x) < 0) by (apply ln_negative; lra).
    assert (HP : Rpower (1 - sigmoid x) g2 <= Rpower (1 - sigmoid x) g1)
      by (apply Rpower_decreasing_in_exponent; [lra | exact Hg]).
    apply Rmult_le_compat_r; [lra|]. apply Rmult_le_compat_l; lra.
Qed.

(** X8. In exact arithmetic, with [alpha] in [0,1] and labels 0 or 1, raising
    [gamma] never raises a loss: for [gamma1 <= gamma2] every per-example loss
    at [gamma2] is at most the one at [gamma1].  In particular, for
    [gamma >= 0] the focal loss never exceeds the weighted cross-entropy,
    which is the loss at [gamma = 0].  In binary64 the code has it so at the
    score 0 with [gamma] 0 and 2, and not at the score 50 with the label 1,
    where the loss is NaN at both and no NaN is at most another
    ([alpha = 0.25]). *)
Theorem loss_decreases_with_gamma (alpha gamma1 gamma2 : R) (y_pred y_true : list R) :
  0 <= alpha <= 1 ->
  gamma1 <= gamma2 ->
  length y_pred = length y_true ->
  Forall (fun t => t = 0 \/ t = 1) y_true ->
  (exists losses1 losses2 : list R,
     fl alpha gamma1 (Array y_pred) (Array y_true) = Ok (Array losses1)
     /\ fl alpha gamma2 (Array y_pred) (Array y_true) = Ok (Array losses2)
     /\ forall i : nat, (i < length y_pred)%nat -> nth i losses2 0 <= nth i losses1 0)
  /\ (exists l0 l2 s0 s2 : float,
        fl 0.25%float 0%float (Array [0; 50]%float) (Array [1; 1]%float)
        = Ok (Array [l0; s0])
        /\ fl 0.25%float 2%float (Array [0; 50]%float) (Array [1; 1]%float)
           = Ok (Array [l2; s2])
        /\ (l2 <=? l0)%float = true
        /\ is_nan s0 = true /\ is_nan s2 = true
        /\ (s2 <=? s0)%float = false).
Proof.
  intros Ha Hg E Ht. split.
  - exists (map2 (loss alpha gamma1) y_pred y_true), (map2 (loss alpha gamma2) y_pred y_true).
    split; [now apply fl_pointwise|].
    split; [now apply fl_pointwise|].
    intros i L. rewrite !(map2_nth _ _ _ 0 0 0 L E).
    apply loss_decreasing_in_gamma; [exact Ha | | exact Hg].
    rewrite Forall_forall in Ht. apply Ht, nth_In. lia.
  - do 4 eexists. split; [vm_compute; reflexivity|].
    split; [vm_compute; reflexivity|].
    repeat split; vm_compute; reflexivity.
Qed.

(** The two literals, read as reals. *)
Lemma literals_in_R : @lit_0_25 R _ = 0.25 /\ @lit_2 R _ = 2.
Proof. unfold lit_0_25, lit_2; in_R. split; lra. Qed.

(** X9. The callbacks as registered.  In every arithmetic, on all vectors,
    the training callback and the estimator callback (which takes the labels
    first) return the same result, and so do the two evaluation callbacks.  In
    exact arithmetic, on equal-length non-empty vectors with labels 0 or 1,
    the gradient is negative at the examples of label 1 and positive at those
    of label 0, and the metric is the triple named ["focal_loss"] with a
    strictly positive value and [false].  In binary64 the code returns the
    gradient 0 at the score 30 with the label 1 and at the score -50 with the
    label 0, and the metric 0 for the score -50 with the label 0. *)
Theorem registered_callbacks :
  (forall (A : Type) (N : NumPy A) (x y_true : list A),
     LGBMClassifier_fit.focal_loss y_true x = lgb_train.focal_loss x {| label := y_true |}
     /\ LGBMClassifier_fit.eval_error y_true x
        = lgb_train.eval_error x {| label := y_true |})
  /\ (forall x y_true : list R,
        x <> [] ->
        length x = length y_true ->
        Forall (fun t => t = 0 \/ t = 1) y_true ->
        exists (grad hess : list R) (v : R),
          lgb_train.focal_loss x {| label := y_true |} = Ok (Array grad, Array hess)
          /\ (forall i : nat, (i < length x)%nat ->
                (nth i y_true 0 = 1 -> nth i grad 0 < 0)
                /\ (nth i y_true 0 = 0 -> 0 < nth i grad 0))
          /\ lgb_train.eval_error x {| label := y_true |}
             = Ok ("focal_loss"%string, v, false)
          /\ 0 < v)
  /\ (exists (s1 s0 v : float) (hess : list float),
        lgb_train.focal_loss [30; -50]%float {| label := [1; 0]%float |}
        = Ok (Array [s1; s0], Array hess)
        /\ (s1 =? 0)%float = true /\ (s0 =? 0)%float = true
        /\ lgb_train.eval_error [-50]%float {| label := [0]%float |}
           = Ok ("focal_loss"%string, v, false)
        /\ (v =? 0)%float = true).
Proof.
  split; [|split].
  - intros A N x y_true.
    unfold lgb_train.focal_loss, lgb_train.eval_error,
      LGBMClassifier_fit.focal_loss, LGBMClassifier_fit.eval_error.
    now rewrite focal_loss_lgb_sk_eq, focal_loss_lgb_eval_error_sk_eq.
  - intros x y_true Hne E Ht.
    destruct literals_in_R as [Ha Hg].
    unfold lgb_train.focal_loss, lgb_train.eval_error.
    rewrite Ha, Hg.
    exists (map2 (grad_at 0.25 2) x y_true), (map2 (hess_at 0.25 2) x y_true),
           (np_mean (Array (map2 (loss 0.25 2) x y_true))).
    rewrite focal_loss_lgb_pointwise, focal_loss_lgb_eval_error_pointwise by exact E.
    split; [reflexivity|].
    split.
    + intros i L. rewrite (map2_nth _ _ _ 0 0 0 L E).
      split; intros ->.
      * apply grad_at_label_1_negative; lra.
      * apply grad_at_label_0_positive; lra.
    + split; [reflexivity|].
      apply mean_loss_positive; auto. lra.
  - do 4 eexists. split; [vm_compute; reflexivity|].
    split; [vm_compute; reflexivity|].
    split; [vm_compute; reflexivity|].
    split; vm_compute; reflexivity.
Qed.

End MoreExact.

(** ** binary64 again: how NaN spreads *)

Section MoreBinary64.

Open Scope float_scope.

(** The two literals, read in binary64. *)
Lemma literals_in_binary64 : @lit_0_25 float _ = 0.25 /\ @lit_2 float _ = 2.
Proof. split; reflexivity. Qed.

Lemma mul_nan_l (x : float) : nan * x = nan.
Proof.
  apply Prim2SF_inj. rewrite mul_spec.
  change (Prim2SF nan) with S754_nan. reflexivity.
Qed.

Lemma add_nan_l (x : float) : nan + x = nan.
Proof.
  apply Prim2SF_inj. rewrite add_spec.
  change (Prim2SF nan) with S754_nan. reflexivity.
Qed.

Lemma sub_nan_r (x : float) : x - nan = nan.
Proof.
  apply Prim2SF_inj. rewrite sub_spec.
  change (Prim2SF nan) with S754_nan.
  unfold SF64sub, SFsub. destruct (Prim2SF x); reflexivity.
Qed.

Lemma div_nan_l (x : float) : nan / x = nan.
Proof.
  apply Prim2SF_inj. rewrite div_spec.
  change (Prim2SF nan) with S754_nan. reflexivity.
Qed.

Lemma div_nan_r (x : float) : x / nan = nan.
Proof.
  apply Prim2SF_inj. rewrite div_spec.
  change (Prim2SF nan) with S754_nan.
  unfold SF64div, SFdiv. destruct (Prim2SF x); reflexivity.
Qed.

(** A sum that meets NaN is NaN. *)
Lemma sum_from_nan (l : list float) : fold_left PrimFloat.add l nan = nan.
Proof.
  induction l as [|x l IH]; simpl; [reflexivity|]. now rewrite add_nan_l.
Qed.

Lemma sum_with_nan (l : list float) (s : float) :
  In nan l -> fold_left PrimFloat.add l s = nan.
Proof.
  revert s; induction l as [|x l IH]; intros s Hin; [destruct Hin|].
  destruct Hin as [Hx | Hl]; simpl.
  - subst x. rewrite add_nan_r. apply sum_from_nan.
  - now apply IH.
Qed.

Lemma mean_with_nan (c_exp c_log : float -> float) (c_power : float -> float -> float)
    (l : list float) :
  In nan l -> @np_mean float (NumPy_binary64 c_exp c_log c_power) (Array l) = nan.
Proof.
  intro Hl. unfold np_mean, np_sum.
  cbn [of_int np_add np_divide NumPy_binary64].
  rewrite sum_with_nan by exact Hl. apply div_nan_l.
Qed.

Section AnyCLibrary.

Variables (c_exp c_log : float -> float) (c_power : float -> float -> float).

Let binary64 : NumPy float := NumPy_binary64 c_exp c_log c_power.

Ltac in_binary64 :=
  cbn [of_int lit_1e_6 np_negative np_add np_subtract np_multiply np_divide
       np_power np_exp np_log NumPy_binary64 binary64].

(** The loss of a NaN score is NaN, whatever the label. *)
Lemma loss_of_nan (a g t : float) :
  c_exp nan = nan -> c_log nan = nan -> @loss float binary64 a g nan t = nan.
Proof.
  intros Hexp Hlog.
  unfold loss, cross_entropy, sigmoid; in_binary64.
  change (- nan) with nan.
  rewrite Hexp, add_nan_r, div_nan_r, Hlog, mul_nan_r, add_nan_l.
  apply mul_nan_r.
Qed.

Lemma derivative_at_nan (f : float -> float) (n : nth_derivative) (dx : float) :
  f nan = nan -> @derivative_at float binary64 f nan n dx = nan.
Proof.
  intro Hf. unfold derivative_at.
  destruct n; cbn [weights map nat_of repeat]; in_binary64;
    rewrite !add_nan_l, !Hf, !mul_nan_r, !add_nan_r; apply div_nan_l.
Qed.

(** The loss of a saturated example of label 1 is NaN. *)
Lemma loss_saturated (a g x : float) :
  1 + c_exp (- x) = 1 -> c_log 0 = neg_infinity -> @loss float binary64 a g x 1 = nan.
Proof.
  intros Hexp Hlog.
  unfold loss, cross_entropy, sigmoid; in_binary64.
  change (F64.float_of_Z 1) with 1.
  rewrite Hexp.
  change (1 / 1) with 1. change (1 - 1) with 0.
  rewrite Hlog.
  change (0 * neg_infinity) with nan.
  now rewrite add_nan_r, mul_nan_r.
Qed.

Lemma nth_In_map2 (F : float -> float -> float) (xs ts : list float) (i : nat) :
  (i < length xs)%nat -> length xs = length ts ->
  In (F (nth i xs 0) (nth i ts 0)) (map2 F xs ts).
Proof.
  intros L E.
  rewrite <- (@map2_nth _ _ _ F xs ts i 0 0 0 L E).
  apply nth_In. now rewrite map2_length.
Qed.

(** X10. In binary64, whatever the C library's [exp], [log] and [**] as long
    as they send NaN to NaN for [exp] and [log]: if one score is NaN, then the
    gradient and the Hessian at that example are NaN and the metric of the
    whole set is NaN, for every [alpha], [gamma] and labels; nothing masks
    it. *)
Theorem nan_score_spreads (alpha gamma : float) (y_pred y_true : list float) (i : nat) :
  c_exp nan = nan ->
  c_log nan = nan ->
  length y_pred = length y_true ->
  (i < length y_pred)%nat ->
  nth i y_pred 0 = nan ->
  exists grad hess : list float,
    @focal_loss_lgb float binary64 y_pred {| label := y_true |} alpha gamma
    = Ok (Array grad, Array hess)
    /\ nth i grad 0 = nan
    /\ nth i hess 0 = nan
    /\ @focal_loss_lgb_eval_error float binary64 y_pred {| label := y_true |} alpha gamma
       = Ok ("focal_loss"%string, nan, false).
Proof.
  intros Hexp Hlog E L Hi.
  exists (map2 (@grad_at float binary64 alpha gamma) y_pred y_true),
         (map2 (@hess_at float binary64 alpha gamma) y_pred y_true).
  split; [now apply focal_loss_lgb_pointwise|].
  rewrite !(@map2_nth _ _ _ _ y_pred y_true i 0 0 0 L E), Hi.
  split; [apply derivative_at_nan; now apply loss_of_nan|].
  split; [apply derivative_at_nan; now apply loss_of_nan|].
  rewrite focal_loss_lgb_eval_error_pointwise by exact E.
  do 2 f_equal. f_equal.
  apply mean_with_nan.
  rewrite <- (@loss_of_nan alpha gamma (nth i y_true 0) Hexp Hlog), <- Hi.
  now apply nth_In_map2.
Qed.

(** X11. In binary64, whatever the C library's [exp], [log] and [**] as long
    as [log 0] is minus infinity: if an example of label 1 has a score so
    large that adding [exp (-x)] to 1 leaves 1, then its loss is NaN and the
    metric of the whole set is NaN, for every [alpha], [gamma] and whatever
    the other examples are. *)
Theorem saturated_example_spoils_the_metric (alpha gamma : float)
    (y_pred y_true : list float) (i : nat) :
  c_log 0 = neg_infinity ->
  length y_pred = length y_true ->
  (i < length y_pred)%nat ->
  1 + c_exp (- nth i y_pred 0) = 1 ->
  nth i y_true 0 = 1 ->
  exists losses : list float,
    @fl float binary64 alpha gamma (Array y_pred) (Array y_true) = Ok (Array losses)
    /\ nth i losses 0 = nan
    /\ @focal_loss_lgb_eval_error float binary64 y_pred {| label := y_true |} alpha gamma
       = Ok ("focal_loss"%string, nan, false).
Proof.
  intros Hlog E L Hexp Ht.
  exists (map2 (@loss float binary64 alpha gamma) y_pred y_true).
  split; [now apply fl_pointwise|].
  rewrite (@map2_nth _ _ _ _ y_pred y_true i 0 0 0 L E), Ht.
  split; [now apply loss_saturated|].
  rewrite focal_loss_lgb_eval_error_pointwise by exact E.
  do 2 f_equal. f_equal.
  apply mean_with_nan.
  rewrite <- (@loss_saturated alpha gamma (nth i y_pred 0) Hexp Hlog), <- Ht.
  now apply nth_In_map2.
Qed.

End AnyCLibrary.

End MoreBinary64.

(** ** These theorems at concrete inputs *)

Section MoreWitnesses.

Lemma labels_1_0_1 : Forall (fun t => t = 0 \/ t = 1)%R [1; 0; 1]%R.
Proof. repeat (apply Forall_cons; [auto|]). apply Forall_nil. Defined.

(** X3 at the scores 3, -1 and 0, in exact arithmetic. *)
Lemma gradient_sign_follows_label_witness :
  (0 < 0.25 < 1)%R /\ (0 <= 2)%R
  /\ length [3; -1; 0]%R = length [1; 0; 1]%R
  /\ exists grad hess : list R,
       focal_loss_lgb [3; -1; 0]%R {| label := [1; 0; 1]%R |} 0.25%R 2%R
       = Ok (Array grad, Array hess)
       /\ forall i : nat, i < 3 ->
            (nth i [1; 0; 1]%R 0%R = 1%R -> (nth i grad 0 < 0)%R)
            /\ (nth i [1; 0; 1]%R 0%R = 0%R -> (0 < nth i grad 0)%R).
Proof.
  assert (Ha : (0 < 0.25 < 1)%R) by lra.
  assert (Hg : (0 <= 2)%R) by lra.
  split; [exact Ha|]. split; [exact Hg|]. split; [reflexivity|].
  exact (proj1 (@gradient_sign_follows_label 0.25%R 2%R [3; -1; 0]%R [1; 0; 1]%R
                  Ha Hg eq_refl labels_1_0_1)).
Defined.

(** X4 between the scores -1 and 2, in exact arithmetic. *)
Lemma loss_is_monotone_in_the_score_witness :
  (0 < 0.25 < 1)%R /\ (0 <= 2)%R /\ (-1 < 2)%R
  /\ exists lx1 ly1 lx0 ly0 : R,
       fl 0.25%R 2%R (Array [-1; 2]%R) (Array [1; 1]%R) = Ok (Array [lx1; ly1])
       /\ (ly1 < lx1)%R
       /\ fl 0.25%R 2%R (Array [-1; 2]%R) (Array [0; 0]%R) = Ok (Array [lx0; ly0])
       /\ (lx0 < ly0)%R.
Proof.
  assert (Ha : (0 < 0.25 < 1)%R) by lra.
  assert (Hg : (0 <= 2)%R) by lra.
  assert (L : (-1 < 2)%R) by lra.
  split; [exact Ha|]. split; [exact Hg|]. split; [exact L|].
  exact (proj1 (@loss_is_monotone_in_the_score 0.25%R 2%R (-1)%R 2%R Ha Hg L)).
Defined.

(** X5 on three examples, in exact arithmetic. *)
Lemma metric_is_positive_witness :
  (0 < 0.25 < 1)%R /\ [3; -1; 0]%R <> []
  /\ length [3; -1; 0]%R = length [1; 0; 1]%R
  /\ exists v : R,
       focal_loss_lgb_eval_error [3; -1; 0]%R {| label := [1; 0; 1]%R |} 0.25%R 2%R
       = Ok ("focal_loss"%string, v, false)
       /\ (0 < v)%R.
Proof.
  assert (Ha : (0 < 0.25 < 1)%R) by lra.
  assert (Hne : [3; -1; 0]%R <> []) by discriminate.
  split; [exact Ha|]. split; [exact Hne|]. split; [reflexivity|].
  exact (proj1 (@metric_is_positive 0.25%R 2%R [3; -1; 0]%R [1; 0; 1]%R
                  Ha Hne eq_refl labels_1_0_1)).
Defined.

(** X6 on three examples, in exact arithmetic. *)
Lemma exchanging_the_classes_witness :
  length [3; -1; 0]%R = length [1; 0; 1]%R
  /\ exists grad hess : list R,
       focal_loss_lgb [3; -1; 0]%R {| label := [1; 0; 1]%R |} 0.25%R 2%R
       = Ok (Array grad, Array hess)
       /\ focal_loss_lgb (map Ropp [3; -1; 0]%R)
            {| label := map (fun t => 1 - t)%R [1; 0; 1]%R |} (1 - 0.25)%R 2%R
          = Ok (Array (map Ropp grad), Array hess)
       /\ fl (1 - 0.25)%R 2%R (Array (map Ropp [3; -1; 0]%R))
            (Array (map (fun t => 1 - t)%R [1; 0; 1]%R))
          = fl 0.25%R 2%R (Array [3; -1; 0]%R) (Array [1; 0; 1]%R)
       /\ focal_loss_lgb_eval_error (map Ropp [3; -1; 0]%R)
            {| label := map (fun t => 1 - t)%R [1; 0; 1]%R |} (1 - 0.25)%R 2%R
          = focal_loss_lgb_eval_error [3; -1; 0]%R {| label := [1; 0; 1]%R |} 0.25%R 2%R.
Proof.
  split; [reflexivity|].
  exact (proj1 (@exchanging_the_classes 0.25%R 2%R [3; -1; 0]%R [1; 0; 1]%R
                  eq_refl labels_1_0_1)).
Defined.

(** X7 on three examples, in exact arithmetic. *)
Lemma hessian_is_positive_without_focusing_witness :
  (0 < 0.25 < 1)%R
  /\ length [3; -1; 0]%R = length [1; 0; 1]%R
  /\ exists grad hess : list R,
       focal_loss_lgb [3; -1; 0]%R {| label := [1; 0; 1]%R |} 0.25%R 0%R
       = Ok (Array grad, Array hess)
       /\ length hess = 3
       /\ Forall (fun h => 0 < h)%R hess.
Proof.
  assert (Ha : (0 < 0.25 < 1)%R) by lra.
  split; [exact Ha|]. split; [reflexivity|].
  exact (proj1 (@hessian_is_positive_without_focusing 0.25%R [3; -1; 0]%R [1; 0; 1]%R
                  Ha eq_refl labels_1_0_1)).
Defined.

(** X8 between [gamma = 0] and [gamma = 2], in exact arithmetic. *)
Lemma loss_decreases_with_gamma_witness :
  (0 <= 0.25 <= 1)%R /\ (0 <= 2)%R
  /\ length [3; -1; 0]%R = length [1; 0; 1]%R
  /\ exists losses1 losses2 : list R,
       fl 0.25%R 0%R (Array [3; -1; 0]%R) (Array [1; 0; 1]%R) = Ok (Array losses1)
       /\ fl 0.25%R 2%R (Array [3; -1; 0]%R) (Array [1; 0; 1]%R) = Ok (Array losses2)
       /\ forall i : nat, i < 3 -> (nth i losses2 0 <= nth i losses1 0)%R.
Proof.
  assert (Ha : (0 <= 0.25 <= 1)%R) by lra.
  assert (Hg : (0 <= 2)%R) by lra.
  split; [exact Ha|]. split; [exact Hg|]. split; [reflexivity|].
  exact (proj1 (@loss_decreases_with_gamma 0.25%R 0%R 2%R [3; -1; 0]%R [1; 0; 1]%R
                  Ha Hg eq_refl labels_1_0_1)).
Defined.

(** X9 on three examples, in exact arithmetic. *)
Lemma registered_callbacks_witness :
  [3; -1; 0]%R <> []
  /\ length [3; -1; 0]%R = length [1; 0; 1]%R
  /\ exists (grad hess : list R) (v : R),
       lgb_train.focal_loss [3; -1; 0]%R {| label := [1; 0; 1]%R |}
       = Ok (Array grad, Array hess)
       /\ (forall i : nat, i < 3 ->
             (nth i [1; 0; 1]%R 0%R = 1%R -> (nth i grad 0 < 0)%R)
             /\ (nth i [1; 0; 1]%R 0%R = 0%R -> (0 < nth i grad 0)%R))
       /\ lgb_train.eval_error [3; -1; 0]%R {| label := [1; 0; 1]%R |}
          = Ok ("focal_loss"%string, v, false)
       /\ (0 < v)%R.
Proof.
  assert (Hne : [3; -1; 0]%R <> []) by discriminate.
  split; [exact Hne|]. split; [reflexivity|].
  exact (proj1 (proj2 registered_callbacks) [3; -1; 0]%R [1; 0; 1]%R
           Hne eq_refl labels_1_0_1).
Defined.

(** X10 with the model of the C library, the second of three scores NaN. *)
Lemma nan_score_spreads_witness :
  F64.exp nan = nan /\ F64.log nan = nan
  /\ exists grad hess : list float,
       focal_loss_lgb [0; nan; 1]%float {| label := [1; 0; 1]%float |} 0.25%float 2%float
       = Ok (Array grad, Array hess)
       /\ nth 1 grad 0%float = nan
       /\ nth 1 hess 0%float = nan
       /\ focal_loss_lgb_eval_error [0; nan; 1]%float {| label := [1; 0; 1]%float |}
            0.25%float 2%float
          = Ok ("focal_loss"%string, nan, false).
Proof.
  split; [reflexivity|]. split; [reflexivity|].
  apply (@nan_score_spreads F64.exp F64.log F64.power 0.25%float 2%float
           [0; nan; 1]%float [1; 0; 1]%float 1 eq_refl eq_refl eq_refl).
  - simpl; lia.
  - reflexivity.
Defined.

(** X11 with the model of the C library, the second of two scores 50. *)
Lemma saturated_example_spoils_the_metric_witness :
  F64.log 0 = neg_infinity
  /\ (1 + F64.exp (- 50) = 1)%float
  /\ exists losses : list float,
       fl 0.25%float 2%float (Array [0; 50]%float) (Array [0; 1]%float) = Ok (Array losses)
       /\ nth 1 losses 0%float = nan
       /\ focal_loss_lgb_eval_error [0; 50]%float {| label := [0; 1]%float |}
            0.25%float 2%float
          = Ok ("focal_loss"%string, nan, false).
Proof.
  split; [reflexivity|]. split; [reflexivity|].
  apply (@saturated_example_spoils_the_metric F64.exp F64.log F64.power 0.25%float 2%float
           [0; 50]%float [0; 1]%float 1 eq_refl eq_refl).
  - simpl; lia.
  - reflexivity.
  - reflexivity.
Defined.

End MoreWitnesses.
